(** * MedTechONE AI agent: retrieval, caching and catalogue ranking

    A shallow embedding of the algorithmic core of [MedTechONE_AI_Expert.py]:

    - [get_embedding] together with its [functools.lru_cache] decorator,
    - [DocumentCache] (a dictionary of time-stamped values),
    - [retrieve_relevant_content_unified] (vector search, keyword fallback,
      web search, merge and sort),
    - [list_airtable_resources] (filter, defaults, sort).

    Conventions.  The similarities, which the program only compares, are
    represented by rationals ([Q]): every finite float is a rational and the
    comparisons agree.  The times of [DocumentCache], which the program
    subtracts, are binary64 floats with their rounding ([PrimFloat]).
    Python strings are represented by Rocq strings, read as UTF-8 text;
    [str.lower] and [str.split], which depend on the Unicode tables, are
    operations of the class [PyStr], and their restriction to ASCII text is
    an instance that computes.  External services are oracles that either
    return a value or raise an exception derived from [Exception]; the
    awaited call to the embeddings service can also end in the cancellation
    of the task, which no [except Exception] clause catches. *)

From Stdlib Require Import ZArith QArith List String Ascii Bool Lia Lra.
From Stdlib Require Import Permutation Sorted PrimFloat.
From stdpp Require Import gmap strings pretty.
Import ListNotations.

Open Scope string_scope.

(** ** Python values that may be missing *)

(** The exceptions derived from Python's [Exception] that the program can
    meet; an [except Exception] clause catches them. *)
Inductive exn :=
| RuntimeError (msg : string)
| KeyError (key : string)
| TypeError (msg : string)
| IndexError (msg : string)
| BackendError (msg : string).

(** The result of a call: a value or a raised exception. *)
Inductive outcome (A : Type) :=
| Ret (a : A)
| Raise (e : exn).
Arguments Ret {A} a.
Arguments Raise {A} e.

(** The end of a piece of asynchronous code: a result as above, or the
    propagation of [asyncio.CancelledError], which the event loop throws
    into a task at an [await] when the task is cancelled.  It derives from
    [BaseException] and not from [Exception]: an [except Exception] clause
    lets it through. *)
Inductive completion (A : Type) :=
| Done (o : outcome A)
| Cancelled.
Arguments Done {A} o.
Arguments Cancelled {A}.

Coercion Done : outcome >-> completion.
Arguments pair {A B} & a b.

(** An exception derived from [Exception] was raised. *)
Definition is_raise {A} (c : completion A) : bool :=
  match c with
  | Done (Raise _) => true
  | _ => false
  end.

(** A key of a dictionary decoded from JSON: missing, present with [null]
    ([None]), or present with a value. *)
Inductive field (A : Type) :=
| Absent
| Null
| Val (a : A).
Arguments Absent {A}.
Arguments Null {A}.
Arguments Val {A} a.

(** [d.get(k, default)]; the result is a Python value, [None] included. *)
Definition dict_get {A} (f : field A) (dflt : option A) : option A :=
  match f with
  | Absent => dflt
  | Null => None
  | Val a => Some a
  end.

(** [d[k]]: raises [KeyError] when the key is missing. *)
Definition dict_index {A} (key : string) (f : field A) : outcome (option A) :=
  match f with
  | Absent => Raise (KeyError key)
  | Null => Ret None
  | Val a => Ret (Some a)
  end.

(** ** Strings: [str.lower], [str.split] and the [in] operator *)

(** [str.lower] and [str.split()] (no argument: split at whitespace) as
    Python provides them, with the two facts about [str.lower] that are
    used: lowering twice is lowering once, and only the empty string lowers
    to the empty string. *)
Class PyStr := {
  lower : string -> string;
  split : string -> list string;
  lower_idempotent : forall s, lower (lower s) = lower s;
  lower_empty : forall s, lower s = EmptyString <-> s = EmptyString
}.

(** *** The two operations on ASCII text *)

Definition is_upper (c : ascii) : bool :=
  let n := nat_of_ascii c in (65 <=? n)%nat && (n <=? 90)%nat.

Definition lower_ascii (c : ascii) : ascii :=
  if is_upper c then ascii_of_nat (nat_of_ascii c + 32) else c.

Fixpoint ascii_lower (s : string) : string :=
  match s with
  | EmptyString => EmptyString
  | String c s' => String (lower_ascii c) (ascii_lower s')
  end.

(** The ASCII characters for which [str.isspace] holds: tab, line feed,
    vertical tab, form feed, carriage return, the four separators
    0x1c-0x1f and the space. *)
Definition is_space (c : ascii) : bool :=
  let n := nat_of_ascii c in
  ((9 <=? n)%nat && (n <=? 13)%nat) || ((28 <=? n)%nat && (n <=? 32)%nat).

(** The maximal runs of non-whitespace characters.  [cur] is the run being
    read, in reverse. *)
Definition flush (cur : list ascii) : list string :=
  match cur with
  | [] => []
  | _ => [string_of_list_ascii (rev cur)]
  end.

Fixpoint split_from (cur : list ascii) (s : string) : list string :=
  match s with
  | EmptyString => flush cur
  | String c s' =>
      if is_space c then flush cur ++ split_from [] s'
      else split_from (c :: cur) s'
  end.

Definition ascii_split (s : string) : list string := split_from [] s.

(** The instance for ASCII text, on which it agrees with Python. *)
Definition ascii_strings : PyStr.
Proof.
  refine {| lower := ascii_lower; split := ascii_split |}.
  - intros s. induction s as [|c s IH]; [reflexivity |].
    cbn [ascii_lower]. rewrite IH. f_equal.
    destruct c as [[] [] [] [] [] [] [] []]; reflexivity.
  - intros s. destruct s; cbn [ascii_lower]; split; congruence.
Defined.

Fixpoint starts_with (p s : string) : bool :=
  match p, s with
  | EmptyString, _ => true
  | String _ _, EmptyString => false
  | String a p', String b s' => Ascii.eqb a b && starts_with p' s'
  end.

(** [sub in s] on strings.  In UTF-8 text a string occurs in another one as
    a sequence of bytes exactly when it does as a sequence of characters. *)
Fixpoint contains (sub s : string) : bool :=
  starts_with sub s ||
  match s with
  | EmptyString => false
  | String _ s' => contains sub s'
  end.

(** The declarative reading of [in]: [sub] occurs somewhere inside [s]. *)
Definition substring_of (sub s : string) : Prop :=
  exists pre post : string, s = pre +:+ sub +:+ post.

(** ** Cache configuration (module constants) *)

Definition EMBEDDING_CACHE_SIZE : nat := 1000.
Definition DOCUMENT_CACHE_SIZE : nat := 100.
Definition CACHE_TTL : float := 3600%float.

(** ** [DocumentCache] *)

Module DocumentCache.

(** [self.cache] maps a key to [(timestamp, value)]; [self.ttl] is fixed by
    the constructor.  The timestamps are the floats of [time.time()].  The
    time to live is the number given to the constructor, as the float it is
    compared as: 3600 and every integer up to 2^53 are floats, and Python
    compares a float with such an integer as it compares two floats. *)
Record t := mk { cache : gmap string (float * string); ttl : float }.

(** [DocumentCache(ttl)]; the constructor's default is [CACHE_TTL]. *)
Definition init (ttl : option float) : t :=
  {| cache := ∅; ttl := default CACHE_TTL ttl |}.

(** [x < y] and [x >= y] on floats. *)
Definition lt (x y : float) : bool :=
  match PrimFloat.compare x y with
  | FLt => true
  | _ => false
  end.

Definition ge (x y : float) : bool :=
  match PrimFloat.compare x y with
  | FGt | FEq => true
  | _ => false
  end.

(** [get(key)], with the value of [time.time()] read by the call. *)
Definition get (now : float) (key : string) (c : t) : option string * t :=
  match cache c !! key with
  | Some (timestamp, value) =>
      if lt (PrimFloat.sub now timestamp) (ttl c) then (Some value, c)
      else (None, {| cache := delete key (cache c); ttl := ttl c |})
  | None => (None, c)
  end.

(** [set(key, value)], with the value of [time.time()] read by the call. *)
Definition set (now : float) (key value : string) (c : t) : t :=
  {| cache := <[key := (now, value)]> (cache c); ttl := ttl c |}.

End DocumentCache.

(** ** External services and the process state *)

(** The two columns of [pdf_documents] searched by the keyword fallback. *)
Inductive column := content_column | title_column.

(** Requests sent to the outside world, with the parameters the program
    passes. *)
Inductive request :=
| EmbeddingsCreate (input : string) (dimensions : nat)
| MatchPdfDocuments (query_embedding : list Q) (match_threshold : Q)
                    (match_count : nat)
| IlikePdfDocuments (col : column) (pattern : string) (limit : nat)
| MatchSitePages (query_embedding : list Q) (match_count : nat).

(** One entry of the log of outbound calls: the request and whether the
    service raised. *)
Record call := { call_request : request; call_failed : bool }.

Definition is_embedding_call (c : call) : bool :=
  match call_request c with EmbeddingsCreate _ _ => true | _ => false end.

Definition is_substring_search (c : call) : bool :=
  match call_request c with IlikePdfDocuments _ _ _ => true | _ => false end.

Definition is_store_call (c : call) : bool := negb (is_embedding_call c).

Definition is_web_search (c : call) : bool :=
  match call_request c with MatchSitePages _ _ => true | _ => false end.

(** An opaque JSON object ([ecr_metadata]). *)
Definition json_object := list (string * string).

(** A row of [pdf_documents], as returned by [match_pdf_documents] or by a
    [select]. *)
Record pdf_doc := {
  pdf_id : field Z;
  pdf_title : field string;
  pdf_content : field string;
  pdf_associated_url : field string;
  pdf_ecr_metadata : field json_object;
  pdf_similarity : field Q
}.

(** A row returned by [match_site_pages]. *)
Record web_doc := {
  web_id : field Z;
  web_title : field string;
  web_content : field string;
  web_url : field string;
  web_similarity : field Q
}.

(** The handle of an embedding client (object identity). *)
Definition handle := nat.

(** The behaviour of the outside world.  Every oracle receives the number of
    outbound calls issued before it, so that a service may answer the same
    request differently at different moments; [None] in a reply is a
    response whose [data] is [None].  The call to the embeddings service is
    awaited, and the task can be cancelled while it waits; the calls to the
    stores are synchronous. *)
Record backends := {
  embeddings_create :
    nat -> handle -> string -> nat -> completion (list (list Q));
  match_pdf_documents :
    nat -> list Q -> Q -> nat -> outcome (option (list pdf_doc));
  ilike_pdf_documents :
    nat -> column -> string -> nat -> outcome (option (list pdf_doc));
  match_site_pages : nat -> list Q -> nat -> outcome (option (list web_doc))
}.

(** A coroutine object made by calling [get_embedding]: it can be awaited
    once. *)
Record coroutine := { awaited : bool }.

(** The state of the Python process: the store of [lru_cache] (most recently
    used entry first) and the log of outbound calls (oldest first). *)
Record process := {
  embedding_cache : list ((string * handle) * coroutine);
  calls : list call
}.

Definition fresh_process : process := {| embedding_cache := []; calls := [] |}.

(** ** A state and exception monad *)

Definition M (A : Type) : Type := process -> completion A * process.

Definition ret {A} (a : A) : M A := fun p => (Ret a, p).

Definition raise {A} (e : exn) : M A := fun p => (Raise e, p).

Definition bind {A B} (m : M A) (k : A -> M B) : M B :=
  fun p =>
    match m p with
    | (Done (Ret a), p') => k a p'
    | (Done (Raise e), p') => (Raise e, p')
    | (Cancelled, p') => (Cancelled, p')
    end.

(** [try: m  except Exception as e: h e].  A cancellation is not caught. *)
Definition try_except {A} (m : M A) (h : exn -> M A) : M A :=
  fun p =>
    match m p with
    | (Done (Ret a), p') => (Ret a, p')
    | (Done (Raise e), p') => h e p'
    | (Cancelled, p') => (Cancelled, p')
    end.

Definition lift {A} (o : outcome A) : M A := fun p => (Done o, p).

Notation "x <- m ;; k" := (bind m (fun x => k))
  (at level 100, m at next level, right associativity).

(** Sequencing of code that has no effect but raising. *)
Definition obind {A B} (o : outcome A) (k : A -> outcome B) : outcome B :=
  match o with
  | Ret a => k a
  | Raise e => Raise e
  end.

Notation "x <-! o ;; k" := (obind o (fun x => k))
  (at level 100, o at next level, right associativity).

(** An awaited outbound call: the oracle is consulted and the call is
    logged. *)
Definition await {A} (rq : request) (answer : nat -> completion A) : M A :=
  fun p =>
    let r := answer (length (calls p)) in
    (r, {| embedding_cache := embedding_cache p;
           calls := (calls p ++ [{| call_request := rq;
                                    call_failed := is_raise r |}])%list |}).

(** A synchronous outbound call. *)
Definition outbound {A} (rq : request) (answer : nat -> outcome A) : M A :=
  fun p =>
    let r := answer (length (calls p)) in
    (Done r,
     {| embedding_cache := embedding_cache p;
        calls := (calls p ++ [{| call_request := rq;
                                 call_failed := is_raise r |}])%list |}).

(** ** [functools.lru_cache] *)

Module LRU.
Section Store.
Context {K V : Type} `{EqDecision K}.

Fixpoint find (k : K) (c : list (K * V)) : option V :=
  match c with
  | [] => None
  | (k', v) :: c' => if decide (k = k') then Some v else find k c'
  end.

Fixpoint remove (k : K) (c : list (K * V)) : list (K * V) :=
  match c with
  | [] => []
  | (k', v) :: c' => if decide (k = k') then c' else (k', v) :: remove k c'
  end.

(** A hit moves the entry to the most recently used position. *)
Definition touch (k : K) (v : V) (c : list (K * V)) : list (K * V) :=
  (k, v) :: remove k c.

(** A miss stores the new entry; a full store first drops its least recently
    used entry. *)
Definition add (maxsize : nat) (k : K) (v : V) (c : list (K * V))
  : list (K * V) :=
  (k, v) :: (if (maxsize <=? length c)%nat then removelast c else c).

(** The wrapper made by the decorator: the value handed to the caller, the
    new store, and whether the wrapped function was called. *)
Definition lookup_or_call (maxsize : nat) (k : K) (make : V)
  (c : list (K * V)) : V * list (K * V) * bool :=
  match find k c with
  | Some v => (v, touch k v c, false)
  | None => (make, add maxsize k make c, true)
  end.

(** In-place update of the cached object stored under [k]. *)
Fixpoint update (k : K) (v : V) (c : list (K * V)) : list (K * V) :=
  match c with
  | [] => []
  | (k', v') :: c' =>
      if decide (k = k') then (k', v) :: c' else (k', v') :: update k v c'
  end.

End Store.
End LRU.

(** ** The program, over the string operations of Python *)

Section Program.
Context {str_ops : PyStr}.

(** ** [list.sort(key=..., reverse=True)] *)

(** Python's sort is stable, also with [reverse=True]: of two elements with
    equal keys the one that came first stays first.  A stable sort is
    determined by its input, so it is embedded as the insertion sort that
    puts an element in front of the first element whose key is not greater.
    [leb y x] reads "the key of [y] is at most the key of [x]". *)
Section Sort.
Context {A : Type} (leb : A -> A -> bool).

Fixpoint insert_desc (x : A) (l : list A) : list A :=
  match l with
  | [] => [x]
  | y :: l' => if leb y x then x :: y :: l' else y :: insert_desc x l'
  end.

Definition sort_desc (l : list A) : list A := fold_right insert_desc [] l.

End Sort.

(** ** [get_embedding] *)

(** [[0] * 1536] *)
Definition zero_vector : list Q := repeat 0%Q 1536.

(** The body of [get_embedding], run when its coroutine is awaited:
    [response.data[0].embedding], or the zero vector on an exception. *)
Definition get_embedding_body (b : backends) (text : string)
  (openai_client : handle) : M (list Q) :=
  try_except
    (data <- await (EmbeddingsCreate text 1536)
               (fun n => embeddings_create b n openai_client text 1536) ;;
     match data with
     | embedding :: _ => ret embedding
     | [] => raise (IndexError "list index out of range")
     end)
    (fun _ => ret zero_vector).

(** [await get_embedding(text, openai_client)], the only way the program
    uses the function.  The decorator caches what the call returns, and the
    call of an [async def] returns a coroutine object: a miss makes a new
    coroutine and stores it, a hit hands out the stored one.  Awaiting runs
    the body and marks the object, which the store still references;
    awaiting a coroutine a second time raises [RuntimeError]. *)
Definition get_embedding (b : backends) (text : string)
  (openai_client : handle) : M (list Q) :=
  fun p =>
    let key := (text, openai_client) in
    let '(co, store, _) :=
      LRU.lookup_or_call EMBEDDING_CACHE_SIZE key {| awaited := false |}
        (embedding_cache p) in
    if awaited co then
      (Raise (RuntimeError "cannot reuse already awaited coroutine"),
       {| embedding_cache := store; calls := calls p |})
    else
      get_embedding_body b text openai_client
        {| embedding_cache := LRU.update key {| awaited := true |} store;
           calls := calls p |}.

(** ** [retrieve_relevant_content_unified] *)

Inductive source := pdf | web.

(** One dictionary of [results].  [res_ecr_metadata] is [Absent] in the
    entries made from web pages, which have no such key. *)
Record result := {
  res_type : source;
  res_title : option string;
  res_content : option string;
  res_url : option string;
  res_ecr_metadata : field json_object;
  res_similarity : option Q
}.

(** The returned text: [""], or [json.dumps(results, indent=2)], kept as the
    list it renders. *)
Inductive text :=
| EmptyText
| JsonText (results : list result).

Definition bootstrap_terms : list string :=
  ["class"; "classification"; "device"; "medical"].

(** [[user_query.lower()] + query_terms + [...]] *)
Definition keywords (user_query : string) : list string :=
  let query_terms := split (lower user_query) in
  ([lower user_query] ++ query_terms ++ bootstrap_terms)%list.

(** [data or []] *)
Definition data_or_empty {A} (data : option (list A)) : list A :=
  match data with
  | Some l => l
  | None => []
  end.

(** [doc.get('id')] *)
Definition doc_id (doc : pdf_doc) : option Z := dict_get (pdf_id doc) None.

(** One round of [if doc_id not in seen_ids: append; add], on the pair
    [(hybrid_pdf_results, seen_ids)]. *)
Definition add_unique (acc : list pdf_doc * gset (option Z)) (doc : pdf_doc)
  : list pdf_doc * gset (option Z) :=
  let '(hybrid_pdf_results, seen_ids) := acc in
  if decide (doc_id doc ∈ seen_ids) then acc
  else ((hybrid_pdf_results ++ [doc])%list, {[doc_id doc]} ∪ seen_ids).

Definition add_all (docs : list pdf_doc)
  (acc : list pdf_doc * gset (option Z)) : list pdf_doc * gset (option Z) :=
  fold_left add_unique docs acc.

(** [.ilike(column, f'%{kw}%').limit(10).execute()] *)
Definition ilike (b : backends) (col : column) (kw : string)
  : M (option (list pdf_doc)) :=
  let pattern := "%" +:+ kw +:+ "%" in
  outbound (IlikePdfDocuments col pattern 10)
    (fun n => ilike_pdf_documents b n col pattern 10).

(** The loop [for kw in keywords]. *)
Fixpoint keyword_search (b : backends) (kws : list string)
  (acc : list pdf_doc * gset (option Z))
  : M (list pdf_doc * gset (option Z)) :=
  match kws with
  | [] => ret acc
  | kw :: rest =>
      keyword_result_content <- ilike b content_column kw ;;
      keyword_result_title <- ilike b title_column kw ;;
      let acc := add_all (data_or_empty keyword_result_content) acc in
      let acc := add_all (data_or_empty keyword_result_title) acc in
      keyword_search b rest acc
  end.

(** The three stages: [hybrid_pdf_results] and [web_results.data]. *)
Definition gather (b : backends) (openai_client : handle)
  (user_query : string) : M (list pdf_doc * option (list web_doc)) :=
  query_embedding <- get_embedding b user_query openai_client ;;
  let kws := keywords user_query in
  pdf_results <- outbound (MatchPdfDocuments query_embedding 0 10)
                   (fun n => match_pdf_documents b n query_embedding 0 10) ;;
  let acc := add_all (data_or_empty pdf_results) ([], ∅) in
  acc <- match fst acc with
         | [] => keyword_search b kws acc
         | _ :: _ => ret acc
         end ;;
  web_results <- outbound (MatchSitePages query_embedding 10)
                   (fun n => match_site_pages b n query_embedding 10) ;;
  ret (fst acc, web_results).

Definition option_field {A} (o : option A) : field A :=
  match o with
  | Some a => Val a
  | None => Null
  end.

Definition pdf_entry (doc : pdf_doc) : result :=
  {| res_type := pdf;
     res_title := dict_get (pdf_title doc) (Some "");
     res_content := dict_get (pdf_content doc) (Some "");
     res_url := dict_get (pdf_associated_url doc) (Some "");
     res_ecr_metadata :=
       option_field (dict_get (pdf_ecr_metadata doc) (Some []));
     res_similarity := dict_get (pdf_similarity doc) None |}.

Definition web_entry (doc : web_doc) : outcome result :=
  t <-! dict_index "title" (web_title doc) ;;
  c <-! dict_index "content" (web_content doc) ;;
  u <-! dict_index "url" (web_url doc) ;;
  s <-! dict_index "similarity" (web_similarity doc) ;;
  Ret {| res_type := web; res_title := t; res_content := c; res_url := u;
         res_ecr_metadata := Absent; res_similarity := s |}.

(** The loop [for doc in web_results.data]; it stops at the first row with
    a missing key. *)
Fixpoint web_entries (docs : list web_doc) : outcome (list result) :=
  match docs with
  | [] => Ret []
  | doc :: rest =>
      e <-! web_entry doc ;;
      es <-! web_entries rest ;;
      Ret (e :: es)
  end.

(** [for doc in data]: [None] is not iterable. *)
Definition iterate {A} (data : option (list A)) : outcome (list A) :=
  match data with
  | Some l => Ret l
  | None => Raise (TypeError "'NoneType' object is not iterable")
  end.

(** [v or 0] on a number or [None]. *)
Definition or_zero (v : option Q) : Q :=
  match v with
  | None => 0
  | Some q => if Qeq_bool q 0 then 0 else q
  end.

(** [lambda x: x.get('similarity', 0) or 0]; every entry has the key. *)
Definition similarity_key (x : result) : Q := or_zero (res_similarity x).

Definition similarity_leb (y x : result) : bool :=
  Qle_bool (similarity_key y) (similarity_key x).

(** Lines 424-448: format both groups, then sort. *)
Definition combine (hybrid_pdf_results : list pdf_doc)
  (web_data : option (list web_doc)) : M (list result) :=
  let results := map pdf_entry hybrid_pdf_results in
  docs <- lift (iterate web_data) ;;
  es <- lift (web_entries docs) ;;
  ret (sort_desc similarity_leb (results ++ es)%list).

(** The body of the [try] up to the sort. *)
Definition retrieve_results (b : backends) (openai_client : handle)
  (user_query : string) : M (list result) :=
  found <- gather b openai_client user_query ;;
  combine (fst found) (snd found).

Definition render (results : list result) : text :=
  match results with
  | [] => EmptyText
  | _ :: _ => JsonText results
  end.

Definition retrieve_relevant_content_unified (b : backends)
  (openai_client : handle) (user_query : string) : M text :=
  try_except
    (results <- retrieve_results b openai_client user_query ;;
     ret (render results))
    (fun _ => ret EmptyText).

(** ** [list_airtable_resources] *)

(** The [fields] of a record of the table 'Source repository'.  Airtable
    leaves empty cells out of the dictionary: [None] is a missing key.  The
    four searched columns and the displayed ones hold text, the score a
    number, the last three lists of text. *)
Record airtable_fields := {
  Title : option string;
  Description : option string;
  Topics : option string;
  Theme : option string;
  Author : option string;
  Link_to_Resource : option string;
  Type_of_Resource : option string;
  Access_Type : option string;
  ECR_Relevance_Score : option Z;
  Development_Stage : option string;
  Estimated_Time : option string;
  Complexity_Level : option string;
  Prerequisites : option (list string);
  Key_Learnings : option (list string);
  Common_Pitfalls : option (list string)
}.

Record airtable_record := { fields : airtable_fields }.

Record ecr_metadata := {
  relevance_score : Z;
  development_stage : string;
  estimated_time : string;
  complexity_level : string;
  prerequisites : list string;
  key_learnings : list string;
  common_pitfalls : list string
}.

Record resource := {
  title : string;
  author : string;
  description : string;
  link : string;
  type_of_resource : string;
  access_type : string;
  ecr : ecr_metadata
}.

(** The test under [if filter_value:]; [None] and [""] are both falsy and
    switch the filter off. *)
Definition passes_filter (filter_value : option string)
  (f : airtable_fields) : bool :=
  match filter_value with
  | None | Some EmptyString => true
  | Some fv =>
      let filter_val := lower fv in
      let title_val := lower (default "" (Title f)) in
      let desc_val := lower (default "" (Description f)) in
      let topics_val := lower (default "" (Topics f)) in
      let theme_val := lower (default "" (Theme f)) in
      contains filter_val title_val || contains filter_val desc_val
      || contains filter_val topics_val || contains filter_val theme_val
  end.

Definition extract_ecr_metadata (f : airtable_fields) : ecr_metadata :=
  {| relevance_score := default 3%Z (ECR_Relevance_Score f);
     development_stage := default "all" (Development_Stage f);
     estimated_time := default "unknown" (Estimated_Time f);
     complexity_level := default "medium" (Complexity_Level f);
     prerequisites := default [] (Prerequisites f);
     key_learnings := default [] (Key_Learnings f);
     common_pitfalls := default [] (Common_Pitfalls f) |}.

Definition format_resource (f : airtable_fields) : resource :=
  {| title := default "Untitled" (Title f);
     author := default "Unknown" (Author f);
     description := default "No description available" (Description f);
     link := default "" (Link_to_Resource f);
     type_of_resource := default "Unknown" (Type_of_Resource f);
     access_type := default "Unknown" (Access_Type f);
     ecr := extract_ecr_metadata f |}.

(** The loop over [records], with its [continue]. *)
Definition formatted_resources (filter_value : option string)
  (records : list airtable_record) : list resource :=
  fold_left
    (fun acc record =>
       if passes_filter filter_value (fields record)
       then (acc ++ [format_resource (fields record)])%list
       else acc)
    records [].

Definition score_leb (y x : resource) : bool :=
  (relevance_score (ecr y) <=? relevance_score (ecr x))%Z.

(** [formatted_resources] after the sort by relevance score. *)
Definition rank (filter_value : option string)
  (records : list airtable_record) : list resource :=
  sort_desc score_leb (formatted_resources filter_value records).

Definition nl : string := String (ascii_of_nat 10) EmptyString.

(** [sep.join(l)] *)
Fixpoint join (sep : string) (l : list string) : string :=
  match l with
  | [] => ""
  | [s] => s
  | s :: rest => s +:+ sep +:+ join sep rest
  end.

Definition join_or_none (l : list string) : string :=
  match l with
  | [] => "None"
  | _ :: _ => join ", " l
  end.

Definition link_line (r : resource) : string :=
  match link r with
  | EmptyString => "- **No direct document link available.**"
  | l => "- **Read This Document Directly Here:** [" +:+ l +:+ "](" +:+ l
         +:+ ")"
  end.

Definition render_resource (r : resource) : string :=
  nl +:+ "## " +:+ title r +:+ nl
  +:+ "- **Author:** " +:+ author r +:+ nl
  +:+ "- **Description:** " +:+ description r +:+ nl
  +:+ link_line r +:+ nl
  +:+ "- **Type:** " +:+ type_of_resource r +:+ nl
  +:+ "- **Access Type:** " +:+ access_type r +:+ nl
  +:+ nl
  +:+ "### ECR-Specific Information:" +:+ nl
  +:+ "- **Relevance Score:** " +:+ pretty (relevance_score (ecr r))
  +:+ "/5" +:+ nl
  +:+ "- **Development Stage:** " +:+ development_stage (ecr r) +:+ nl
  +:+ "- **Estimated Time:** " +:+ estimated_time (ecr r) +:+ nl
  +:+ "- **Complexity Level:** " +:+ complexity_level (ecr r) +:+ nl
  +:+ "- **Prerequisites:** " +:+ join_or_none (prerequisites (ecr r)) +:+ nl
  +:+ "- **Key Learnings:** " +:+ join_or_none (key_learnings (ecr r)) +:+ nl
  +:+ "- **Common Pitfalls:** " +:+ join_or_none (common_pitfalls (ecr r))
  +:+ nl.

(** [str(e)] *)
Definition exn_str (e : exn) : string :=
  match e with
  | RuntimeError m | TypeError m | IndexError m | BackendError m => m
  | KeyError k => "'" +:+ k +:+ "'"
  end.

(** The tool itself; [table_all] is what [table.all(max_records=100)] does.
    [filter_field] is accepted and not used. *)
Definition list_airtable_resources (table_all : outcome (list airtable_record))
  (filter_field filter_value : option string) : string :=
  match table_all with
  | Raise e => "Error retrieving resources: " +:+ exn_str e
  | Ret [] => "No resources found in the database."
  | Ret records =>
      join (nl +:+ "---" +:+ nl)
        (map render_resource (rank filter_value records))
  end.

(** ** Notions used to state the properties *)

(** The rows kept by the loops over [seen_ids]: the first row of every id,
    in the order of arrival. *)
Fixpoint first_seen (seen : gset (option Z)) (docs : list pdf_doc)
  : list pdf_doc :=
  match docs with
  | [] => []
  | d :: rest =>
      if decide (doc_id d ∈ seen) then first_seen seen rest
      else d :: first_seen ({[doc_id d]} ∪ seen) rest
  end.

Definition rows_of (o : outcome (option (list pdf_doc))) : list pdf_doc :=
  match o with
  | Ret data => data_or_empty data
  | Raise _ => []
  end.

(** The rows answered to the keyword searches, in the order in which the
    searches are issued; [n] is the number of calls logged before. *)
Fixpoint keyword_rows (b : backends) (n : nat) (kws : list string)
  : list pdf_doc :=
  match kws with
  | [] => []
  | kw :: rest =>
      (rows_of (ilike_pdf_documents b n content_column
                  ("%" +:+ kw +:+ "%") 10)
       ++ rows_of (ilike_pdf_documents b (S n) title_column
                     ("%" +:+ kw +:+ "%") 10)
       ++ keyword_rows b (S (S n)) rest)%list
  end.

(** The two substring searches of one keyword. *)
Definition keyword_requests (kw : string) : list request :=
  [IlikePdfDocuments content_column ("%" +:+ kw +:+ "%") 10;
   IlikePdfDocuments title_column ("%" +:+ kw +:+ "%") 10].

(** The calls a run has added to the log of [p]. *)
Definition issued (p p' : process) : list call :=
  skipn (length (calls p)) (calls p').

(** A sequence of [await get_embedding(...)], each in its own
    [try]/[except]. *)
Fixpoint embed_many (b : backends) (reqs : list (string * handle))
  (p : process) : process :=
  match reqs with
  | [] => p
  | (text, client) :: rest =>
      embed_many b rest (snd (get_embedding b text client p))
  end.

Definition has_similarity (k : Q) (x : result) : bool :=
  Qeq_bool (similarity_key x) k.

Definition has_score (k : Z) (x : resource) : bool :=
  (relevance_score (ecr x) =? k)%Z.

(** The filter of [list_airtable_resources], read declaratively. *)
Definition matches (filter_value : string) (f : airtable_fields) : Prop :=
  substring_of (lower filter_value) (lower (default "" (Title f)))
  \/ substring_of (lower filter_value) (lower (default "" (Description f)))
  \/ substring_of (lower filter_value) (lower (default "" (Topics f)))
  \/ substring_of (lower filter_value) (lower (default "" (Theme f))).

(** The keys of the embedding store, most recently used first. *)
Definition cached_keys (p : process) : list (string * handle) :=
  map fst (embedding_cache p).

(** What holds of every state the program can reach: the store is within
    its capacity and every stored coroutine has been awaited (each one is
    awaited by the statement that obtains it). *)
Definition cache_ok (p : process) : Prop :=
  (length (embedding_cache p) <= EMBEDDING_CACHE_SIZE)%nat
  /\ Forall (fun e => awaited (snd e) = true) (embedding_cache p).

(** The vector the body of [get_embedding] makes of the service's answer. *)
Definition embedding_of (r : completion (list (list Q))) : list Q :=
  match r with
  | Done (Ret (embedding :: _)) => embedding
  | _ => zero_vector
  end.

(** The end of the body of [get_embedding]: a cancellation goes through,
    everything else is turned into a vector. *)
Definition embedding_result (r : completion (list (list Q)))
  : completion (list Q) :=
  match r with
  | Cancelled => Cancelled
  | Done _ => Ret (embedding_of r)
  end.

(** ** Sample services and rows *)

Definition pdf_row (id : Z) (name : string) (similarity : field Q) : pdf_doc :=
  {| pdf_id := Val id; pdf_title := Val name; pdf_content := Val "text";
     pdf_associated_url := Val "https://medtechone-learning.com/";
     pdf_ecr_metadata := Absent; pdf_similarity := similarity |}.

Definition web_row (id : Z) (name : string) (similarity : Q) : web_doc :=
  {| web_id := Val id; web_title := Val name; web_content := Val "text";
     web_url := Val "https://medtechone-learning.com/";
     web_similarity := Val similarity |}.

(** Services that answer every request and find nothing. *)
Definition empty_stores : backends :=
  {| embeddings_create := fun _ _ _ _ => Ret [[1%Q; 0%Q]];
     match_pdf_documents := fun _ _ _ _ => Ret (Some []);
     ilike_pdf_documents := fun _ _ _ _ => Ret (Some []);
     match_site_pages := fun _ _ _ => Ret (Some []) |}.

(** A logged call that was answered. *)
Definition answered (rq : request) : call :=
  {| call_request := rq; call_failed := false |}.

(** The state after one more logged call. *)
Definition logged (p : process) (c : call) : process :=
  {| embedding_cache := embedding_cache p; calls := (calls p ++ [c])%list |}.

(** No call to a content store in [l] has raised. *)
Definition contained (l : list call) : Prop :=
  Forall (fun c => is_store_call c = true -> call_failed c = false) l.

(** The shape of the log of a computation: every call to a store is
    answered, except possibly the very last call of a computation that
    raises. *)
Definition disciplined {A} (m : M A) : Prop :=
  forall p, exists l,
    calls (snd (m p)) = (calls p ++ l)%list
    /\ match fst (m p) with
       | Done (Raise _) => contained (removelast l)
       | _ => contained l
       end.

(** The rows of the PDF store that reach the loops over [seen_ids], in
    order: those of the vector search, then, when there are none, those of
    the keyword searches. *)
Definition pdf_stage_rows (b : backends) (n : nat) (q : string)
  (data : option (list pdf_doc)) : list pdf_doc :=
  (data_or_empty data
   ++ match data_or_empty data with
      | [] => keyword_rows b n (keywords q)
      | _ :: _ => []
      end)%list.

(** Stores in which nothing matches: every search is answered, with no
    rows. *)
Definition no_matches (b : backends) : Prop :=
  (forall n e t c, exists data,
      match_pdf_documents b n e t c = Ret data /\ data_or_empty data = [])
  /\ (forall n col pat lim, exists data,
        ilike_pdf_documents b n col pat lim = Ret data
        /\ data_or_empty data = [])
  /\ (forall n e c, match_site_pages b n e c = Ret (Some [])).

(** Containment of a failure at the stage where it occurs, read on one run:
    when the PDF vector search raises, the web search is still issued; when
    the web search raises, the rows found in the PDF store are still
    returned. *)
Definition stage_contained (b : backends) (client : handle) (q : string)
  (p : process) : Prop :=
  let r := retrieve_relevant_content_unified b client q p in
  forall emb p1,
    get_embedding b q client p = (Ret emb, p1) ->
    (is_raise (match_pdf_documents b (length (calls p1)) emb 0 10) = true ->
     existsb is_web_search (issued p (snd r)) = true)
    /\ (forall rows,
          match_pdf_documents b (length (calls p1)) emb 0 10
          = Ret (Some rows) ->
          rows <> [] ->
          is_raise (match_site_pages b (S (length (calls p1))) emb 10) = true ->
          fst r <> Ret EmptyText).

(** The PDF store is down, the web store has one page. *)
Definition pdf_store_down : backends :=
  {| embeddings_create := fun _ _ _ _ => Ret [[1%Q; 0%Q]];
     match_pdf_documents := fun _ _ _ _ => Raise (BackendError "timeout");
     ilike_pdf_documents := fun _ _ _ _ => Raise (BackendError "timeout");
     match_site_pages :=
       fun _ _ _ => Ret (Some [web_row 1 "Usability" (8 # 10)]) |}.

(** The web store is down, the PDF store has one chunk. *)
Definition web_store_down : backends :=
  {| embeddings_create := fun _ _ _ _ => Ret [[1%Q; 0%Q]];
     match_pdf_documents :=
       fun _ _ _ _ => Ret (Some [pdf_row 1 "Usability" (Val (9 # 10))]);
     ilike_pdf_documents := fun _ _ _ _ => Ret (Some []);
     match_site_pages := fun _ _ _ => Raise (BackendError "timeout") |}.

(** The identifiers of the rows behind the entries of [results]: one entry
    is made of every row of [hybrid_pdf_results] and of every web row. *)
Definition passage_ids (hybrid : list pdf_doc) (docs : list web_doc)
  : list (option Z) :=
  (map doc_id hybrid ++ map (fun d => dict_get (web_id d) None) docs)%list.

(** Uniqueness of identifiers across both stores, read on one run. *)
Definition ids_unique (b : backends) (client : handle) (q : string)
  (p : process) : Prop :=
  forall hybrid docs p1,
    gather b client q p = (Ret (hybrid, Some docs), p1) ->
    List.NoDup (passage_ids hybrid docs).

(** Both stores answer with a row whose identifier is 1. *)
Definition same_id_in_both_stores : backends :=
  {| embeddings_create := fun _ _ _ _ => Ret [[1%Q; 0%Q]];
     match_pdf_documents :=
       fun _ _ _ _ => Ret (Some [pdf_row 1 "Usability" (Val (9 # 10))]);
     ilike_pdf_documents := fun _ _ _ _ => Ret (Some []);
     match_site_pages :=
       fun _ _ _ => Ret (Some [web_row 1 "Usability" (8 # 10)]) |}.

(** Three passages: 0.9 and no similarity from the PDF store, 0.95 from the
    web store. *)
Definition three_passages : backends :=
  {| embeddings_create := fun _ _ _ _ => Ret [[1%Q; 0%Q]];
     match_pdf_documents :=
       fun _ _ _ _ =>
         Ret (Some [pdf_row 1 "pdf" (Val (9 # 10));
                    pdf_row 2 "pdf-keyword" Absent]);
     ilike_pdf_documents := fun _ _ _ _ => Ret (Some []);
     match_site_pages := fun _ _ _ => Ret (Some [web_row 3 "web" (95 # 100)])
  |}.

Definition entry (t : source) (name : string) (similarity : option Q)
  : result :=
  {| res_type := t; res_title := Some name; res_content := Some "text";
     res_url := Some "https://medtechone-learning.com/";
     res_ecr_metadata := match t with pdf => Val [] | web => Absent end;
     res_similarity := similarity |}.

(** The vector search finds nothing; the keyword searches find two chunks,
    over and over, and the web store a page of similarity 0. *)
Definition keyword_hits : backends :=
  {| embeddings_create := fun _ _ _ _ => Ret [[1%Q; 0%Q]];
     match_pdf_documents := fun _ _ _ _ => Ret None;
     ilike_pdf_documents :=
       fun _ _ _ _ =>
         Ret (Some [pdf_row 7 "first" Absent; pdf_row 8 "second" Absent]);
     match_site_pages := fun _ _ _ => Ret (Some [web_row 7 "page" 0]) |}.


(** A record of the catalogue with a title, a theme and, possibly, a
    relevance score. *)
Definition catalogue_record (name theme : string) (score : option Z)
  : airtable_record :=
  {| fields :=
       {| Title := Some name; Description := None; Topics := None;
          Theme := Some theme; Author := None; Link_to_Resource := None;
          Type_of_Resource := None; Access_Type := None;
          ECR_Relevance_Score := score; Development_Stage := None;
          Estimated_Time := None; Complexity_Level := None;
          Prerequisites := None; Key_Learnings := None;
          Common_Pitfalls := None |} |}.

Definition sample_catalogue : list airtable_record :=
  [catalogue_record "usability checklist" "Design" None;
   catalogue_record "Human factors handbook" "Usability" (Some 5%Z);
   catalogue_record "Clinical trial design" "Clinical trials" (Some 5%Z);
   catalogue_record "Usability testing 101" "Design" (Some 5%Z)].

(** The vector search finds nothing and the third substring search (the call
    at position 4 of the log) raises. *)
Definition third_search_fails : backends :=
  {| embeddings_create := fun _ _ _ _ => Ret [[1%Q; 0%Q]];
     match_pdf_documents := fun _ _ _ _ => Ret None;
     ilike_pdf_documents :=
       fun n _ _ _ =>
         if (n =? 4)%nat then Raise (BackendError "timeout")
         else Ret (Some []);
     match_site_pages := fun _ _ _ => Ret (Some []) |}.

(** The number of substring searches after a vector search without rows,
    read on one run: two for every keyword. *)
Definition fallback_issues_all (b : backends) (client : handle) (q : string)
  (p : process) : Prop :=
  forall emb p1 data,
    get_embedding b q client p = (Ret emb, p1) ->
    match_pdf_documents b (length (calls p1)) emb 0 10 = Ret data ->
    data_or_empty data = [] ->
    length
      (List.filter is_substring_search
         (issued p (snd (retrieve_relevant_content_unified b client q p))))
    = (2 * length (keywords q))%nat.

(** The task is cancelled while it waits for the embedding. *)
Definition cancelled_while_embedding : backends :=
  {| embeddings_create := fun _ _ _ _ => Cancelled;
     match_pdf_documents := fun _ _ _ _ => Ret (Some []);
     ilike_pdf_documents := fun _ _ _ _ => Ret (Some []);
     match_site_pages := fun _ _ _ => Ret (Some []) |}.

(** A search that returns whatever happens, and returns the empty text as
    soon as a service has failed, read on one run. *)
Definition returns_empty_on_failure (b : backends) (client : handle)
  (q : string) (p : process) : Prop :=
  let r := retrieve_relevant_content_unified b client q p in
  exists t,
    fst r = Ret t
    /\ ((exists c, In c (issued p (snd r)) /\ call_failed c = true) ->
        t = EmptyText).

(** A computation that is never cancelled: it awaits nothing. *)
Definition synchronous {A} (m : M A) : Prop :=
  forall p, fst (m p) <> Cancelled.

(** The calls of [l] that raised come last: a call that raised is the last
    one. *)
Definition failure_ends (l : list call) : Prop :=
  forall before c after,
    l = (before ++ c :: after)%list -> call_failed c = true -> after = [].

(** ** [list_documentation_pages] *)

(** A row of [site_pages] selected with its [url] column. *)
Record url_row := { row_url : field string }.

(** The generator [doc['url'] for doc in result.data]. *)
Fixpoint row_urls (rows : list url_row) : outcome (list (option string)) :=
  match rows with
  | [] => Ret []
  | r :: rest =>
      u <-! dict_index "url" (row_url r) ;;
      us <-! row_urls rest ;;
      Ret (u :: us)
  end.

(** The strings of a list of Python values, when all of them are strings. *)
Fixpoint all_strings (vs : list (option string)) : option (list string) :=
  match vs with
  | [] => Some []
  | Some s :: rest =>
      match all_strings rest with
      | Some ss => Some (s :: ss)
      | None => None
      end
  | None :: _ => None
  end.

(** [sorted(l)] on strings: ascending and stable. *)
Definition sorted_strings (l : list string) : list string :=
  sort_desc (fun y x => String.leb x y) l.

(** [sorted(set(values))].  A set with at most one element is returned
    without any comparison; otherwise every element is compared with
    another one, and [None] cannot be compared with a string. *)
Definition sorted_set (values : list (option string))
  : outcome (list (option string)) :=
  let distinct : gset (option string) := list_to_set values in
  match elements distinct with
  | [] => Ret []
  | [v] => Ret [v]
  | vs =>
      match all_strings vs with
      | Some ss => Ret (map Some (sorted_strings ss))
      | None =>
          Raise (TypeError "'<' not supported between instances of 'NoneType' and 'str'")
      end
  end.

(** The tool; [select] is what the query on [site_pages] does. *)
Definition list_documentation_pages
  (select : outcome (option (list url_row))) : list (option string) :=
  match
    (data <-! select ;;
     match data_or_empty data with
     | [] => Ret []
     | rows => urls <-! row_urls rows ;; sorted_set urls
     end)
  with
  | Ret urls => urls
  | Raise _ => []
  end.

(** ** [get_page_content] *)

(** A row of [site_pages] selected with [title, content, chunk_number]; the
    rows arrive ordered by chunk number and the number is not read. *)
Record page_chunk := {
  chunk_title : field string;
  chunk_content : field string
}.

(** [s.split(sep)[0]] for a non-empty separator: the part of [s] before the
    first occurrence of [sep]. *)
Fixpoint before_first (sep s : string) : string :=
  if starts_with sep s then EmptyString
  else
    match s with
    | EmptyString => EmptyString
    | String c s' => String c (before_first sep s')
    end.

(** [str(chunk['content']) if chunk['content'] is not None else ""], for
    every row in turn. *)
Fixpoint chunk_texts (rows : list page_chunk) : outcome (list string) :=
  match rows with
  | [] => Ret []
  | chunk :: rest =>
      v <-! dict_index "content" (chunk_content chunk) ;;
      texts <-! chunk_texts rest ;;
      Ret (default "" v :: texts)
  end.

(** The text returned when the body raises an exception whose [str] is
    [message]. *)
Definition page_error (message : string) : string :=
  "Error retrieving page content: " +:+ message.

(** The tool; [select] is what the query on [site_pages] does. *)
Definition get_page_content (select : outcome (option (list page_chunk)))
  (url : string) : string :=
  match select with
  | Raise e => page_error (exn_str e)
  | Ret data =>
      match data_or_empty data with
      | [] => "No content found for URL: " +:+ url
      | (first :: _) as rows =>
          match dict_index "title" (chunk_title first) with
          | Raise e => page_error (exn_str e)
          | Ret None =>
              page_error "'NoneType' object has no attribute 'split'"
          | Ret (Some page_title_full) =>
              let page_title := before_first " - " page_title_full in
              match chunk_texts rows with
              | Raise e => page_error (exn_str e)
              | Ret texts =>
                  join (nl +:+ nl) (("# " +:+ page_title +:+ nl) :: texts)
              end
          end
      end
  end.

(** ** [process_pdf_docs.py]: metadata read off the text of a PDF *)

(** [any(w in content_lower for w in words)] *)
Definition any_in (words : list string) (content_lower : string) : bool :=
  existsb (fun w => contains w content_lower) words.

(** The dictionary [ecr_metadata] of [process_pdf_chunks]. *)
Record chunk_ecr_metadata := {
  doc_development_stage : string;
  doc_device_type : string;
  doc_complexity_level : string;
  doc_estimated_time : string;
  doc_prerequisites : list string;
  doc_common_pitfalls : list string;
  doc_key_milestones : list string
}.

(** The content analysis of [process_pdf_chunks]: the defaults, then the
    three chains of [if]/[elif]. *)
Definition content_metadata (content : string) : chunk_ecr_metadata :=
  let content_lower := lower content in
  {| doc_development_stage :=
       if any_in ["concept"; "ideation"; "initial"] content_lower
       then "concept"
       else if any_in ["prototype"; "development"; "design"] content_lower
       then "prototype"
       else if any_in ["pre-clinical"; "preclinical"] content_lower
       then "pre-clinical"
       else if any_in ["clinical"; "trial"] content_lower
       then "clinical"
       else "unknown";
     doc_device_type :=
       if any_in ["diagnostic"; "diagnosis"] content_lower
       then "diagnostic"
       else if any_in ["therapeutic"; "treatment"] content_lower
       then "therapeutic"
       else if any_in ["monitoring"; "monitor"] content_lower
       then "monitoring"
       else "unknown";
     doc_complexity_level :=
       if any_in ["basic"; "simple"; "fundamental"] content_lower
       then "low"
       else if any_in ["advanced"; "complex"; "sophisticated"] content_lower
       then "high"
       else "medium";
     doc_estimated_time := "unknown";
     doc_prerequisites := [];
     doc_common_pitfalls := [];
     doc_key_milestones := [] |}.

(** ** [process_pdf_directory]: the URL of a file *)

(** The inner loop: some pattern, lowercased, occurs in the lowercased file
    name. *)
Definition pattern_matches (patterns : list string) (filename : string)
  : bool :=
  existsb (fun pattern => contains (lower pattern) (lower filename)) patterns.

(** [if associated_url:] on [None] or a string. *)
Definition truthy (v : option string) : bool :=
  match v with
  | None | Some EmptyString => false
  | Some _ => true
  end.

(** The outer loop over [url_mapping.items()], a dictionary in insertion
    order, from the current value of [associated_url]. *)
Fixpoint find_url (url_mapping : list (string * list string))
  (filename : string) (associated_url : option string) : option string :=
  match url_mapping with
  | [] => associated_url
  | (url, patterns) :: rest =>
      let associated_url :=
        if pattern_matches patterns filename then Some url
        else associated_url in
      if truthy associated_url then associated_url
      else find_url rest filename associated_url
  end.

(** [s.endswith(suffix)] *)
Fixpoint ends_with (suffix s : string) : bool :=
  String.eqb suffix s ||
  match s with
  | EmptyString => false
  | String _ s' => ends_with suffix s'
  end.

(** The URL under which the chunks of a file of the directory are stored;
    [None] when the file is passed over. *)
Definition associated_url_for (url_mapping : list (string * list string))
  (filename : string) : option string :=
  if ends_with ".pdf" filename then
    let associated_url := find_url url_mapping filename None in
    if truthy associated_url then associated_url else None
  else None.

(** ** [run_agent_with_streaming]: the retry loop *)

(** How the body of one [try] ends: it completes, it raises
    [httpx.RemoteProtocolError], or it raises another exception. *)
Inductive attempt_end := Completed | ProtocolError | OtherError.

(** How the function ends. *)
Inductive run_end := Returned | RaisedProtocolError | RaisedOtherError.

Definition max_retries : nat := 3.

(** The loop [for attempt in range(max_retries)], from the attempts left,
    the current [retry_delay] and the pauses taken so far (in seconds). *)
Fixpoint retry_loop (body : nat -> attempt_end) (attempts : list nat)
  (retry_delay : nat) (slept : list nat) : run_end * list nat :=
  match attempts with
  | [] => (Returned, slept)
  | attempt :: rest =>
      match body attempt with
      | Completed => (Returned, slept)
      | ProtocolError =>
          if (attempt <? max_retries - 1)%nat
          then retry_loop body rest (retry_delay * 2)
                 (slept ++ [retry_delay])%list
          else (RaisedProtocolError, slept)
      | OtherError => (RaisedOtherError, slept)
      end
  end.

Definition run_agent_with_streaming (body : nat -> attempt_end)
  : run_end * list nat :=
  retry_loop body (seq 0 max_retries) 1 [].

(** ** Notions used to state further properties *)


(** A computation that issues at most [n] outbound calls. *)
Definition calls_within {A} (n : nat) (m : M A) : Prop :=
  forall p, exists l,
    calls (snd (m p)) = (calls p ++ l)%list /\ (length l <= n)%nat.

(** Stores that return no more rows than they are asked for. *)
Definition honours_limits (b : backends) : Prop :=
  (forall n e t c data,
      match_pdf_documents b n e t c = Ret data ->
      (length (data_or_empty data) <= c)%nat)
  /\ (forall n col pat lim data,
        ilike_pdf_documents b n col pat lim = Ret data ->
        (length (data_or_empty data) <= lim)%nat)
  /\ (forall n e c data,
        match_site_pages b n e c = Ret data ->
        (length (data_or_empty data) <= c)%nat).

(** The embedding service is down, the stores answer. *)
Definition embedding_down : backends :=
  {| embeddings_create := fun _ _ _ _ => Raise (BackendError "timeout");
     match_pdf_documents :=
       fun _ _ _ _ => Ret (Some [pdf_row 1 "Usability" (Val (9 # 10))]);
     ilike_pdf_documents := fun _ _ _ _ => Ret (Some []);
     match_site_pages := fun _ _ _ => Ret (Some []) |}.

(** The PDF store finds a chunk; the web store answers a row without
    similarity. *)
Definition web_row_without_similarity : backends :=
  {| embeddings_create := fun _ _ _ _ => Ret [[1%Q; 0%Q]];
     match_pdf_documents :=
       fun _ _ _ _ => Ret (Some [pdf_row 1 "Usability" (Val (9 # 10))]);
     ilike_pdf_documents := fun _ _ _ _ => Ret (Some []);
     match_site_pages :=
       fun _ _ _ =>
         Ret (Some [{| web_id := Val 2%Z; web_title := Val "Usability";
                       web_content := Val "text"; web_url := Val "/usability";
                       web_similarity := Absent |}]) |}.

(** The mapping built by [main] in [process_pdf_docs.py]. *)
Definition main_url_mapping : list (string * list string) :=
  [("https://medtechone-learning.com/pre-clinical-trials",
    ["pre-clinical"; "Pre-Clinical"]);
   ("https://medtechone-learning.com/clinical-trials",
    ["clinical trials"; "Clinical-Trials"]);
   ("https://medtechone-learning.com/data", ["data"; "Data"]);
   ("https://medtechone-learning.com/usability", ["usability"; "Usability"]);
   ("https://medtechone-learning.com/software", ["software"; "Software"])].

(** The text a row contributes to its page. *)
Definition chunk_text_of (chunk : page_chunk) : string :=
  default "" (dict_get (chunk_content chunk) None).

(** Paragraphs, each after a blank line. *)
Fixpoint paragraphs (texts : list string) : string :=
  match texts with
  | [] => ""
  | t :: rest => nl +:+ nl +:+ t +:+ paragraphs rest
  end.

(** The stores of [three_passages], cut to the number of rows asked for. *)
Definition limited_passages : backends :=
  {| embeddings_create := fun _ _ _ _ => Ret [[1%Q; 0%Q]];
     match_pdf_documents :=
       fun _ _ _ c =>
         Ret (Some (firstn c [pdf_row 1 "pdf" (Val (9 # 10));
                              pdf_row 2 "pdf-keyword" Absent]));
     ilike_pdf_documents := fun _ _ _ _ => Ret (Some []);
     match_site_pages :=
       fun _ _ c => Ret (Some (firstn c [web_row 3 "web" (95 # 100)])) |}.

End Program.

(** * Properties *)

Section Proofs.
Context {str_ops : PyStr}.

(** ** Strings *)

Lemma starts_with_spec (p s : string) :
  starts_with p s = true <-> exists post, s = p +:+ post.
Proof.
  revert s. induction p as [|a p IH]; intros s; simpl.
  - split; [intros _; exists s; reflexivity | reflexivity].
  - destruct s as [|c s]; simpl.
    + split; [discriminate | intros [post H]; discriminate].
    + rewrite andb_true_iff, Ascii.eqb_eq, IH. split.
      * intros [-> [post ->]]. exists post. reflexivity.
      * intros [post H]. injection H as -> ->. split; [reflexivity | eauto].
Qed.

Lemma contains_spec (sub s : string) :
  contains sub s = true <-> substring_of sub s.
Proof.
  unfold substring_of. induction s as [|c s IH].
  - simpl. rewrite orb_false_r, starts_with_spec. split.
    + intros [post H]. exists "", post. exact H.
    + intros [pre [post H]]. destruct pre; simpl in H; [eauto | discriminate].
  - cbn [contains]. rewrite orb_true_iff, starts_with_spec, IH. split.
    + intros [[post H] | [pre [post H]]].
      * exists "", post. exact H.
      * exists (String c pre), post. simpl. rewrite H. reflexivity.
    + intros [pre [post H]]. destruct pre as [|a pre]; simpl in H.
      * left. eauto.
      * right. injection H as -> H. eauto.
Qed.

(** ** The stable descending sort *)

Lemma StronglySorted_weaken {A} (R S : A -> A -> Prop) (l : list A) :
  (forall x y, R x y -> S x y) -> StronglySorted R l -> StronglySorted S l.
Proof.
  intros HRS. induction 1 as [|x l Hs IH Hx]; constructor; [exact IH |].
  eapply List.Forall_impl; [| exact Hx]. intros y. apply HRS.
Qed.

Lemma StronglySorted_tail {A} (R : A -> A -> Prop) (l1 l2 : list A) :
  StronglySorted R (l1 ++ l2) -> StronglySorted R l2.
Proof.
  induction l1 as [|x l1 IH]; simpl; [auto |].
  intros H. apply IH. inversion H; assumption.
Qed.

Section SortFacts.
Context {A : Type} (leb : A -> A -> bool).

Lemma insert_desc_perm (x : A) (l : list A) :
  Permutation (insert_desc leb x l) (x :: l).
Proof.
  induction l as [|y l IH]; simpl; [reflexivity |].
  destruct (leb y x); [reflexivity |].
  rewrite IH. apply perm_swap.
Qed.

Lemma sort_desc_perm (l : list A) : Permutation (sort_desc leb l) l.
Proof.
  induction l as [|x l IH]; simpl; [reflexivity |].
  rewrite insert_desc_perm. constructor. exact IH.
Qed.

(** Elements of one key class are never reordered. *)
Lemma insert_desc_filter (P : A -> bool) (x : A) (l : list A) :
  (forall a b, P a = true -> P b = true -> leb a b = true) ->
  List.filter P (insert_desc leb x l) = List.filter P (x :: l).
Proof.
  intros HP. induction l as [|y l IH]; [reflexivity |].
  cbn [insert_desc]. destruct (leb y x) eqn:E; [reflexivity |].
  cbn [List.filter] in *. rewrite IH.
  destruct (P x) eqn:Px, (P y) eqn:Py; try reflexivity.
  rewrite (HP y x Py Px) in E. discriminate.
Qed.

Lemma sort_desc_stable (P : A -> bool) (l : list A) :
  (forall a b, P a = true -> P b = true -> leb a b = true) ->
  List.filter P (sort_desc leb l) = List.filter P l.
Proof.
  intros HP. induction l as [|x l IH]; [reflexivity |].
  cbn [sort_desc fold_right]. fold (sort_desc leb l).
  rewrite insert_desc_filter by exact HP.
  cbn [List.filter]. rewrite IH. reflexivity.
Qed.

Hypothesis leb_total : forall a b, leb a b = true \/ leb b a = true.
Hypothesis leb_trans :
  forall a b c, leb a b = true -> leb b c = true -> leb a c = true.

Lemma insert_desc_sorted (x : A) (l : list A) :
  StronglySorted (fun a b => leb b a = true) l ->
  StronglySorted (fun a b => leb b a = true) (insert_desc leb x l).
Proof using leb_total leb_trans.
  induction 1 as [|y l Hs IH Hy]; simpl.
  - repeat constructor.
  - destruct (leb y x) eqn:E.
    + constructor; [constructor; assumption |].
      constructor; [exact E |].
      rewrite List.Forall_forall in *. intros z Hz.
      apply (leb_trans z y x); [apply Hy; exact Hz | exact E].
    + constructor; [exact IH |].
      rewrite List.Forall_forall in *. intros z Hz.
      apply (Permutation_in _ (insert_desc_perm x l)) in Hz.
      destruct Hz as [<- | Hz]; [| apply Hy; exact Hz].
      destruct (leb_total y x) as [H | H]; [congruence | exact H].
Qed.

Lemma sort_desc_sorted (l : list A) :
  StronglySorted (fun a b => leb b a = true) (sort_desc leb l).
Proof using leb_total leb_trans.
  induction l as [|x l IH]; simpl; [constructor |].
  apply insert_desc_sorted. exact IH.
Qed.

End SortFacts.

(** ** [DocumentCache] *)

Lemma ge_not_lt (x y : float) :
  DocumentCache.ge x y = true -> DocumentCache.lt x y = false.
Proof.
  unfold DocumentCache.ge, DocumentCache.lt.
  destruct (PrimFloat.compare x y); congruence.
Qed.

Lemma get_absent (now : float) (key : string) (c : DocumentCache.t) :
  DocumentCache.cache c !! key = None ->
  DocumentCache.get now key c = (None, c).
Proof. intros E. unfold DocumentCache.get. rewrite E. reflexivity. Qed.

(** C8.  After [set] at time [t_set], a [get] at a time [t_get] with
    [t_get - t_set >= ttl] answers [None] and deletes the entry, so that
    every later [get] of the key answers [None] as well; a [get] with
    [t_get - t_set < ttl] answers the stored value.  The difference and the
    comparisons are those of the floats.  The constructor's default time to
    live is 3600 seconds. *)
Theorem ttl_cache_expiry (key value : string) (t_set t_get : float)
  (c0 : DocumentCache.t) :
  let c := DocumentCache.set t_set key value c0 in
  let r := DocumentCache.get t_get key c in
  (DocumentCache.ge (PrimFloat.sub t_get t_set) (DocumentCache.ttl c) = true ->
     fst r = None
     /\ DocumentCache.cache (snd r) !! key = None
     /\ forall t' : float, DocumentCache.get t' key (snd r) = (None, snd r))
  /\ (DocumentCache.lt (PrimFloat.sub t_get t_set) (DocumentCache.ttl c) = true ->
      r = (Some value, c))
  /\ DocumentCache.ttl (DocumentCache.init None) = 3600%float.
Proof.
  intros c r. subst c r.
  unfold DocumentCache.get, DocumentCache.set. cbn [DocumentCache.cache
    DocumentCache.ttl]. rewrite lookup_insert_eq.
  split; [| split; [| reflexivity]].
  - intros E. apply ge_not_lt in E. rewrite E.
    cbn [fst snd DocumentCache.cache].
    split; [reflexivity |]. split; [apply lookup_delete_eq |].
    intros t'. rewrite lookup_delete_eq. reflexivity.
  - intros E. rewrite E. reflexivity.
Qed.

Lemma ttl_cache_expiry_witness :
  fst (DocumentCache.get 3601 "page"
         (DocumentCache.set 0 "page" "text" (DocumentCache.init None)))
  = None
  /\ fst (DocumentCache.get 3600.1 "page"
            (DocumentCache.set 0.1 "page" "text" (DocumentCache.init None)))
     = None
  /\ DocumentCache.get 3599 "page"
       (DocumentCache.set 0 "page" "text" (DocumentCache.init None))
     = (Some "text",
        DocumentCache.set 0 "page" "text" (DocumentCache.init None)).
Proof.
  split; [| split].
  - apply (ttl_cache_expiry "page" "text" 0 3601 (DocumentCache.init None)).
    vm_compute. reflexivity.
  - apply (ttl_cache_expiry "page" "text" 0.1 3600.1
             (DocumentCache.init None)).
    vm_compute. reflexivity.
  - apply (ttl_cache_expiry "page" "text" 0 3599 (DocumentCache.init None)).
    vm_compute. reflexivity.
Defined.

(** ** [list_airtable_resources] *)

Lemma passes_filter_matches (fv : string) (f : airtable_fields) :
  passes_filter (Some fv) f = true <-> matches fv f.
Proof.
  unfold matches. destruct fv as [|a fv].
  - cbn [passes_filter]. split; [intros _ | reflexivity].
    left. rewrite (proj2 (lower_empty "") eq_refl).
    exists "", (lower (default "" (Title f))). reflexivity.
  - cbn [passes_filter]. rewrite !orb_true_iff, !contains_spec. tauto.
Qed.

Lemma formatted_resources_filter (filter_value : option string)
  (records : list airtable_record) :
  formatted_resources filter_value records
  = map (fun r => format_resource (fields r))
      (List.filter (fun r => passes_filter filter_value (fields r)) records).
Proof.
  unfold formatted_resources.
  enough (H : forall acc,
    fold_left
      (fun acc record =>
         if passes_filter filter_value (fields record)
         then (acc ++ [format_resource (fields record)])%list else acc)
      records acc
    = (acc ++ map (fun r => format_resource (fields r))
         (List.filter (fun r => passes_filter filter_value (fields r))
            records))%list) by apply (H []).
  induction records as [|r records IH]; intros acc; simpl.
  - rewrite app_nil_r. reflexivity.
  - rewrite IH. destruct (passes_filter filter_value (fields r)); simpl.
    + rewrite <- app_assoc. reflexivity.
    + reflexivity.
Qed.

Lemma score_leb_total (a b : resource) :
  score_leb a b = true \/ score_leb b a = true.
Proof. unfold score_leb. rewrite !Z.leb_le. lia. Qed.

Lemma score_leb_trans (a b c : resource) :
  score_leb a b = true -> score_leb b c = true -> score_leb a c = true.
Proof. unfold score_leb. rewrite !Z.leb_le. lia. Qed.

(** C9.  With a filter value, the ranked list holds exactly the records of
    the catalogue in which the lowercased value occurs in the lowercased
    Title, Description, Topics or Theme; it is in descending order of
    relevance score, a missing score counting as 3 (and the other missing
    metadata taking their defaults); records of equal score keep the order
    of the catalogue. *)
Theorem rank_filters_and_sorts (fv : string) (records : list airtable_record) :
  let kept :=
    List.filter (fun r => passes_filter (Some fv) (fields r)) records in
  let ranked := rank (Some fv) records in
  (forall f, passes_filter (Some fv) f = true <-> matches fv f)
  /\ (forall r, In r kept <-> In r records /\ matches fv (fields r))
  /\ Permutation ranked (map (fun r => format_resource (fields r)) kept)
  /\ StronglySorted
       (fun x y => (relevance_score (ecr y) <= relevance_score (ecr x))%Z)
       ranked
  /\ (forall k : Z,
        List.filter (has_score k) ranked
        = List.filter (has_score k)
            (map (fun r => format_resource (fields r)) kept))
  /\ (forall f,
        let m := ecr (format_resource f) in
        relevance_score m = default 3%Z (ECR_Relevance_Score f)
        /\ development_stage m = default "all" (Development_Stage f)
        /\ complexity_level m = default "medium" (Complexity_Level f)
        /\ estimated_time m = default "unknown" (Estimated_Time f)
        /\ prerequisites m = default [] (Prerequisites f)
        /\ key_learnings m = default [] (Key_Learnings f)
        /\ common_pitfalls m = default [] (Common_Pitfalls f))
  /\ (forall filter_field,
        records <> [] ->
        list_airtable_resources (Ret records) filter_field (Some fv)
        = join (nl +:+ "---" +:+ nl) (map render_resource ranked)).
Proof.
  intros kept ranked. subst kept ranked. unfold rank.
  rewrite formatted_resources_filter.
  split; [apply passes_filter_matches |].
  split; [intros r; rewrite filter_In, passes_filter_matches; tauto |].
  split; [apply sort_desc_perm |].
  split.
  - eapply StronglySorted_weaken;
      [| apply sort_desc_sorted;
         [apply score_leb_total | apply score_leb_trans]].
    intros x y H. apply Z.leb_le. exact H.
  - split; [| split; [intros f; cbn; repeat split |]].
    + intros k. apply sort_desc_stable.
      intros a b Ha Hb. unfold has_score, score_leb in *.
      apply Z.eqb_eq in Ha, Hb. apply Z.leb_le. lia.
    + intros filter_field Hne. unfold list_airtable_resources, rank.
      rewrite formatted_resources_filter.
      destruct records; [congruence | reflexivity].
Qed.

(** ** The [lru_cache] store *)

Section LRUFacts.
Context {K V : Type} `{EqDecision K}.
Implicit Types (k : K) (v : V) (c : list (K * V)).

Lemma find_in_keys k c : LRU.find k c <> None <-> In k (map fst c).
Proof.
  induction c as [|[k' v'] c IH]; simpl; [tauto |].
  destruct (decide (k = k')) as [-> | Hne].
  - split; [auto | discriminate].
  - rewrite IH. split; [auto | intros [H | H]; [congruence | exact H]].
Qed.

Lemma find_none_keys k c : LRU.find k c = None <-> ~ In k (map fst c).
Proof.
  rewrite <- find_in_keys. destruct (LRU.find k c); split; try congruence.
  intros H. exfalso. apply H. discriminate.
Qed.

Lemma find_in k v c : LRU.find k c = Some v -> In (k, v) c.
Proof.
  induction c as [|[k' v'] c IH]; simpl; [discriminate |].
  destruct (decide (k = k')) as [-> | Hne].
  - intros [= ->]. left. reflexivity.
  - intros H. right. apply IH. exact H.
Qed.

Lemma remove_incl k c : incl (LRU.remove k c) c.
Proof.
  induction c as [|[k' v'] c IH]; simpl; [apply incl_refl |].
  destruct (decide (k = k')).
  - apply incl_tl, incl_refl.
  - apply incl_cons; [left; reflexivity | apply incl_tl, IH].
Qed.

Lemma remove_length k v c :
  LRU.find k c = Some v -> S (length (LRU.remove k c)) = length c.
Proof.
  induction c as [|[k' v'] c IH]; simpl; [discriminate |].
  destruct (decide (k = k')); [reflexivity |].
  intros H. simpl. rewrite IH by exact H. reflexivity.
Qed.

Lemma update_keys k v c : map fst (LRU.update k v c) = map fst c.
Proof.
  induction c as [|[k' v'] c IH]; simpl; [reflexivity |].
  destruct (decide (k = k')); simpl; [reflexivity | rewrite IH; reflexivity].
Qed.

Lemma update_length k v c : length (LRU.update k v c) = length c.
Proof.
  rewrite <- (length_map fst), update_keys, length_map. reflexivity.
Qed.

Lemma update_head k v v0 c : LRU.update k v ((k, v0) :: c) = (k, v) :: c.
Proof. simpl. destruct (decide (k = k)); [reflexivity | congruence]. Qed.

Lemma firstn_in_le {X} (x : X) (l : list X) (m n : nat) :
  (m <= n)%nat -> In x (firstn m l) -> In x (firstn n l).
Proof.
  revert m n. induction l as [|y l IH]; intros m n Hle.
  - rewrite !firstn_nil. auto.
  - destruct m as [|m]; [intros [] |].
    destruct n as [|n]; [lia |]. simpl.
    intros [H | H]; [auto | right; apply (IH m n); [lia | exact H]].
Qed.

Lemma firstn_in {X} (x : X) (l : list X) (m : nat) :
  In x (firstn m l) -> In x l.
Proof.
  revert m. induction l as [|y l IH]; intros [|m]; simpl; try tauto.
  intros [H | H]; [auto | right; exact (IH _ H)].
Qed.

(** Taking another entry out of the store never pushes [k] further back. *)
Lemma remove_keeps_rank k k' c (m : nat) :
  k <> k' ->
  In k (firstn m (map fst c)) ->
  In k (firstn m (map fst (LRU.remove k' c))).
Proof.
  intros Hne. revert m. induction c as [|[k0 v0] c IH]; intros m; simpl.
  - auto.
  - destruct m as [|m]; [intros [] |]. simpl.
    destruct (decide (k' = k0)) as [-> | Hne0].
    + intros [H | H]; [congruence |].
      apply (firstn_in_le _ _ m (S m)); [lia | exact H].
    + simpl. intros [H | H]; [auto | right; apply IH; exact H].
Qed.

Lemma firstn_removelast {X} (l : list X) (m : nat) :
  (m < length l)%nat -> firstn m (removelast l) = firstn m l.
Proof.
  revert m. induction l as [|x l IH]; intros m Hm; [reflexivity |].
  destruct l as [|y l]; [simpl in Hm; replace m with 0%nat by lia;
                          reflexivity |].
  destruct m as [|m]; [reflexivity |].
  cbn [removelast firstn]. f_equal.
  apply IH. simpl in *. lia.
Qed.

Lemma removelast_length {X} (l : list X) :
  length (removelast l) = Nat.pred (length l).
Proof.
  induction l as [|x l IH]; [reflexivity |].
  destruct l as [|y l]; [reflexivity |].
  cbn [removelast length] in *. rewrite IH. reflexivity.
Qed.

Lemma removelast_incl {X} (l : list X) : incl (removelast l) l.
Proof.
  induction l as [|x l IH]; [apply incl_refl |].
  destruct l as [|y l]; [intros z [] |].
  cbn [removelast]. apply incl_cons; [left; reflexivity |].
  apply incl_tl. exact IH.
Qed.

End LRUFacts.

(** ** [get_embedding] *)

Lemma get_embedding_body_run (b : backends) (text : string) (client : handle)
  (p : process) :
  get_embedding_body b text client p
  = (embedding_result
       (embeddings_create b (length (calls p)) client text 1536),
     {| embedding_cache := embedding_cache p;
        calls := (calls p ++
                  [{| call_request := EmbeddingsCreate text 1536;
                      call_failed :=
                        is_raise (embeddings_create b (length (calls p))
                                    client text 1536) |}])%list |}).
Proof.
  unfold get_embedding_body, try_except, bind, await.
  destruct (embeddings_create b (length (calls p)) client text 1536)
    as [[[|e data] | err] |]; reflexivity.
Qed.

Lemma get_embedding_hit (b : backends) (text : string) (client : handle)
  (p : process) (co : coroutine) :
  LRU.find (text, client) (embedding_cache p) = Some co ->
  awaited co = true ->
  get_embedding b text client p
  = (Raise (RuntimeError "cannot reuse already awaited coroutine"),
     {| embedding_cache := LRU.touch (text, client) co (embedding_cache p);
        calls := calls p |}).
Proof.
  intros Hf Ha. unfold get_embedding, LRU.lookup_or_call.
  rewrite Hf, Ha. reflexivity.
Qed.

Lemma get_embedding_miss (b : backends) (text : string) (client : handle)
  (p : process) :
  LRU.find (text, client) (embedding_cache p) = None ->
  get_embedding b text client p
  = (embedding_result
       (embeddings_create b (length (calls p)) client text 1536),
     {| embedding_cache :=
          LRU.add EMBEDDING_CACHE_SIZE (text, client) {| awaited := true |}
            (embedding_cache p);
        calls := (calls p ++
                  [{| call_request := EmbeddingsCreate text 1536;
                      call_failed :=
                        is_raise (embeddings_create b (length (calls p))
                                    client text 1536) |}])%list |}).
Proof.
  intros Hf. unfold get_embedding, LRU.lookup_or_call. rewrite Hf.
  cbn [awaited]. rewrite get_embedding_body_run.
  cbn [embedding_cache calls]. unfold LRU.add at 1. rewrite update_head.
  reflexivity.
Qed.

(** Whatever the state, the entry of the key is afterwards the most recent
    one and its coroutine has been awaited. *)
Lemma get_embedding_stores (b : backends) (text : string) (client : handle)
  (p : process) :
  exists rest,
    embedding_cache (snd (get_embedding b text client p))
    = ((text, client), {| awaited := true |}) :: rest.
Proof.
  destruct (LRU.find (text, client) (embedding_cache p)) as [co|] eqn:Hf.
  - destruct co as [[|]].
    + rewrite (get_embedding_hit _ _ _ _ _ Hf eq_refl). cbn. eauto.
    + unfold get_embedding, LRU.lookup_or_call. rewrite Hf. cbn [awaited].
      rewrite get_embedding_body_run. cbn [snd embedding_cache].
      unfold LRU.touch. rewrite update_head. eauto.
  - rewrite (get_embedding_miss _ _ _ _ Hf). cbn. eauto.
Qed.

(** C6 (the defect).  The second of two [await get_embedding(text, client)]
    in a row never returns a vector: the store hands out the coroutine that
    the first call has already awaited, and awaiting it raises
    [RuntimeError], whatever the embedding service does. *)
Theorem get_embedding_repeat_raises (b : backends) (text : string)
  (client : handle) (p : process) :
  fst (get_embedding b text client (snd (get_embedding b text client p)))
  = Raise (RuntimeError "cannot reuse already awaited coroutine").
Proof.
  destruct (get_embedding_stores b text client p) as [rest Hc].
  rewrite (get_embedding_hit _ _ _ _ {| awaited := true |});
    [reflexivity | | reflexivity].
  rewrite Hc. simpl. destruct (decide _); [reflexivity | congruence].
Qed.

Lemma zero_vector_length : length zero_vector = 1536%nat.
Proof. apply repeat_length. Qed.

(** The part of C6 that the code does provide: a call that misses the store
    and is not cancelled while it waits returns a vector; it has 1536
    entries when the service answers with vectors of that dimension, and it
    is the zero vector when the service raises (or answers with no data). *)
Lemma get_embedding_first_call (b : backends) (text : string)
  (client : handle) (p : process) :
  LRU.find (text, client) (embedding_cache p) = None ->
  let answer := embeddings_create b (length (calls p)) client text 1536 in
  (answer = Cancelled -> fst (get_embedding b text client p) = Cancelled)
  /\ (answer <> Cancelled ->
      exists v,
        fst (get_embedding b text client p) = Ret v
        /\ (is_raise answer = true -> v = zero_vector)
        /\ ((forall data, answer = Ret data ->
               Forall (fun e => length e = 1536%nat) data) ->
            length v = 1536%nat)).
Proof.
  intros Hf answer. rewrite (get_embedding_miss _ _ _ _ Hf).
  fold answer. split; [intros ->; reflexivity |]. intros Hrun.
  exists (embedding_of answer).
  destruct answer as [[[|e data] | err] |]; simpl.
  - split; [reflexivity |].
    split; [discriminate | intros _; apply zero_vector_length].
  - split; [reflexivity |]. split; [discriminate |]. intros Hd.
    specialize (Hd _ eq_refl). inversion Hd; assumption.
  - split; [reflexivity |].
    split; [reflexivity | intros _; apply zero_vector_length].
  - congruence.
Qed.

Lemma cache_size_value : EMBEDDING_CACHE_SIZE = 1000%nat.
Proof. reflexivity. Qed.

Lemma cache_size_pos : (0 < EMBEDDING_CACHE_SIZE)%nat.
Proof. apply Nat.ltb_lt. reflexivity. Qed.

Lemma fresh_process_ok : cache_ok fresh_process.
Proof. split; [apply Nat.le_0_l | constructor]. Qed.

Lemma map_removelast {X Y} (f : X -> Y) (l : list X) :
  map f (removelast l) = removelast (map f l).
Proof.
  induction l as [|x l IH]; [reflexivity |].
  destruct l as [|y l]; [reflexivity |].
  cbn [removelast map] in *. rewrite IH. reflexivity.
Qed.

Lemma cached_awaited (p : process) (key : string * handle) (co : coroutine) :
  cache_ok p -> LRU.find key (embedding_cache p) = Some co ->
  awaited co = true.
Proof.
  intros [_ Hall] Hf. apply find_in in Hf.
  rewrite List.Forall_forall in Hall. exact (Hall _ Hf).
Qed.

(** A hit in a reachable state: no outbound call, the entry moves to the
    front. *)
Lemma get_embedding_on_hit (b : backends) (text : string) (client : handle)
  (p : process) :
  cache_ok p -> In (text, client) (cached_keys p) ->
  let p' := snd (get_embedding b text client p) in
  calls p' = calls p
  /\ cached_keys p'
     = (text, client)
       :: map fst (LRU.remove (text, client) (embedding_cache p))
  /\ cache_ok p'.
Proof.
  intros Hok Hin. apply find_in_keys in Hin.
  destruct (LRU.find (text, client) (embedding_cache p)) as [co|] eqn:Hf;
    [clear Hin | congruence].
  pose proof (cached_awaited _ _ _ Hok Hf) as Ha.
  rewrite (get_embedding_hit _ _ _ _ _ Hf Ha). cbn.
  split; [reflexivity |]. split; [reflexivity |].
  destruct Hok as [Hlen Hall]. split; cbn.
  - rewrite (remove_length _ _ _ Hf). exact Hlen.
  - constructor; [exact Ha |].
    rewrite List.Forall_forall in *. intros e He.
    apply Hall. exact (remove_incl _ _ _ He).
Qed.

(** A miss: one outbound call; the new entry goes to the front and a full
    store loses its last, least recently used, entry. *)
Lemma get_embedding_on_miss (b : backends) (text : string) (client : handle)
  (p : process) :
  cache_ok p -> ~ In (text, client) (cached_keys p) ->
  let p' := snd (get_embedding b text client p) in
  calls p'
  = (calls p ++
     [{| call_request := EmbeddingsCreate text 1536;
         call_failed :=
           is_raise (embeddings_create b (length (calls p)) client text
                       1536) |}])%list
  /\ cached_keys p'
     = (text, client)
       :: (if (EMBEDDING_CACHE_SIZE <=? length (cached_keys p))%nat
           then removelast (cached_keys p) else cached_keys p)
  /\ cache_ok p'.
Proof.
  intros [Hlen Hall] Hin. apply find_none_keys in Hin.
  rewrite (get_embedding_miss _ _ _ _ Hin). cbn [snd calls].
  split; [reflexivity |].
  unfold cached_keys, cache_ok, LRU.add. cbn [embedding_cache map fst].
  rewrite length_map.
  pose proof cache_size_pos as Hpos.
  destruct (EMBEDDING_CACHE_SIZE <=? length (embedding_cache p))%nat eqn:E.
  - apply Nat.leb_le in E.
    split; [rewrite map_removelast; reflexivity |].
    split.
    + cbn [length]. rewrite removelast_length. lia.
    + constructor; [reflexivity |].
      rewrite List.Forall_forall in *. intros e He.
      apply Hall. exact (removelast_incl _ _ He).
  - apply Nat.leb_gt in E. split; [reflexivity |].
    split; [cbn [length]; lia | constructor; [reflexivity | exact Hall]].
Qed.

Lemma get_embedding_ok (b : backends) (text : string) (client : handle)
  (p : process) :
  cache_ok p -> cache_ok (snd (get_embedding b text client p)).
Proof.
  intros Hok.
  destruct (in_dec (prod_eq_dec) (text, client) (cached_keys p)) as [H | H].
  - apply (get_embedding_on_hit b text client p Hok H).
  - apply (get_embedding_on_miss b text client p Hok H).
Qed.

(** One call on another key moves an entry back by at most one place, and an
    entry that is not in the last place survives. *)
Lemma get_embedding_rank (b : backends) (text : string) (client : handle)
  (p : process) (key : string * handle) (m : nat) :
  cache_ok p -> key <> (text, client) ->
  (m < EMBEDDING_CACHE_SIZE)%nat ->
  In key (firstn m (cached_keys p)) ->
  In key (firstn (S m) (cached_keys (snd (get_embedding b text client p)))).
Proof.
  intros Hok Hne Hm Hin.
  destruct (in_dec (prod_eq_dec) (text, client) (cached_keys p)) as [H | H].
  - destruct (get_embedding_on_hit b text client p Hok H) as (_ & -> & _).
    cbn [firstn]. right. apply remove_keeps_rank; [exact Hne | exact Hin].
  - destruct (get_embedding_on_miss b text client p Hok H) as (_ & -> & _).
    cbn [firstn]. right.
    destruct (EMBEDDING_CACHE_SIZE <=? length (cached_keys p))%nat eqn:E;
      [| exact Hin].
    apply Nat.leb_le in E. rewrite firstn_removelast; [exact Hin |].
    lia.
Qed.

Lemma embed_many_ok (b : backends) (reqs : list (string * handle))
  (p : process) : cache_ok p -> cache_ok (embed_many b reqs p).
Proof.
  revert p. induction reqs as [|[text client] reqs IH]; intros p Hok;
    [exact Hok |].
  simpl. apply IH. apply get_embedding_ok. exact Hok.
Qed.

Lemma embed_many_rank (b : backends) (reqs : list (string * handle))
  (key : string * handle) (p : process) (m : nat) :
  cache_ok p -> ~ In key reqs ->
  (m + length reqs <= EMBEDDING_CACHE_SIZE)%nat ->
  In key (firstn m (cached_keys p)) ->
  In key (cached_keys (embed_many b reqs p)).
Proof.
  revert p m. induction reqs as [|[text client] reqs IH]; intros p m Hok Hni
    Hlen Hin.
  - simpl. exact (firstn_in _ _ _ Hin).
  - simpl in *. apply (IH _ (S m)).
    + apply get_embedding_ok. exact Hok.
    + tauto.
    + lia.
    + apply get_embedding_rank; [exact Hok | intros ->; tauto | lia |
                                 exact Hin].
Qed.

(** C7.  In every reachable state, [get_embedding] is served from a store
    keyed by the pair (text, client) that holds at most 1000 entries.  A
    call whose key is stored issues no outbound call and makes the entry the
    most recent one; a call whose key is not stored issues exactly one
    outbound call, stores the key in front and, when the store is full,
    drops the least recently used entry.  Hence two calls with the same
    text and client issue at most one outbound call, the second one none,
    and this still holds with up to 999 calls for other keys in between. *)
Theorem embedding_memoization (b : backends) (text : string)
  (client : handle) (p : process) :
  cache_ok p ->
  let key := (text, client) in
  let p' := snd (get_embedding b text client p) in
  EMBEDDING_CACHE_SIZE = 1000%nat
  /\ cache_ok p'
  /\ (In key (cached_keys p) ->
      calls p' = calls p
      /\ cached_keys p'
         = key :: map fst (LRU.remove key (embedding_cache p)))
  /\ (~ In key (cached_keys p) ->
      calls p'
      = (calls p ++
         [{| call_request := EmbeddingsCreate text 1536;
             call_failed :=
               is_raise (embeddings_create b (length (calls p)) client text
                           1536) |}])%list
      /\ cached_keys p'
         = key :: (if (EMBEDDING_CACHE_SIZE <=? length (cached_keys p))%nat
                   then removelast (cached_keys p) else cached_keys p))
  /\ (length (calls (snd (get_embedding b text client p')))
      <= S (length (calls p)))%nat
  /\ (forall others : list (string * handle),
        (length others < EMBEDDING_CACHE_SIZE)%nat ->
        ~ In key others ->
        let p2 := embed_many b others p' in
        calls (snd (get_embedding b text client p2)) = calls p2).
Proof.
  intros Hok key p'.
  assert (Hok' : cache_ok p') by (apply get_embedding_ok; exact Hok).
  assert (Hlater : forall others : list (string * handle),
             (length others < EMBEDDING_CACHE_SIZE)%nat ->
             ~ In key others ->
             calls (snd (get_embedding b text client
                           (embed_many b others p')))
             = calls (embed_many b others p')).
  { intros others Hlen Hni.
    apply get_embedding_on_hit; [apply embed_many_ok; exact Hok' |].
    apply (embed_many_rank b others key p' 1); [exact Hok' | exact Hni | lia |].
    destruct (get_embedding_stores b text client p) as [rest Hc].
    unfold cached_keys, p'. rewrite Hc. left. reflexivity. }
  split; [reflexivity |]. split; [exact Hok' |].
  split.
  { intros H.
    destruct (get_embedding_on_hit b text client p Hok H) as (Hc & Hk & _).
    split; assumption. }
  split.
  { intros H.
    destruct (get_embedding_on_miss b text client p Hok H) as (Hc & Hk & _).
    split; assumption. }
  split; [| exact Hlater].
  specialize (Hlater [] cache_size_pos (fun H => H)). simpl in Hlater.
  rewrite Hlater.
  destruct (in_dec (prod_eq_dec) key (cached_keys p)) as [H | H].
  - destruct (get_embedding_on_hit b text client p Hok H) as (Hc & _).
    fold p' in Hc. rewrite Hc. lia.
  - destruct (get_embedding_on_miss b text client p Hok H) as (Hc & _).
    fold p' in Hc. rewrite Hc, length_app. simpl. lia.
Qed.

Lemma embedding_memoization_witness :
  length
    (calls
       (snd (get_embedding empty_stores "usability" 0%nat
               (snd (get_embedding empty_stores "usability" 0%nat
                       fresh_process)))))
  = 1%nat.
Proof.
  destruct (embedding_memoization empty_stores "usability" 0%nat
              fresh_process fresh_process_ok)
    as (_ & _ & _ & _ & _ & Hlater).
  change (get_embedding empty_stores "usability" 0%nat fresh_process).2
    with (embed_many empty_stores []
            (get_embedding empty_stores "usability" 0%nat fresh_process).2)
    at 1.
  rewrite (Hlater [] cache_size_pos (fun F => F)). reflexivity.
Defined.

(** ** Running the monad *)

Lemma bind_ret_inv {A B} (m : M A) (k : A -> M B) (p p' : process) (x : B) :
  bind m k p = (Ret x, p') ->
  exists a p1, m p = (Ret a, p1) /\ k a p1 = (Ret x, p').
Proof.
  unfold bind.
  destruct (m p) as [[[a | e] |] p1]; [eauto | discriminate | discriminate].
Qed.

Lemma lift_ret_inv {A} (o : outcome A) (p p' : process) (a : A) :
  lift o p = (Ret a, p') -> o = Ret a /\ p' = p.
Proof. unfold lift. intros [= -> ->]. auto. Qed.

Lemma outbound_run {A} (rq : request) (answer : nat -> outcome A)
  (p : process) :
  outbound rq answer p
  = (Done (answer (length (calls p))),
     logged p {| call_request := rq;
                 call_failed := is_raise (answer (length (calls p))) |}).
Proof. reflexivity. Qed.

Lemma outbound_ret_inv {A} (rq : request) (answer : nat -> outcome A)
  (p p' : process) (a : A) :
  outbound rq answer p = (Ret a, p') ->
  answer (length (calls p)) = Ret a /\ p' = logged p (answered rq).
Proof.
  rewrite outbound_run. intros [= H <-]. rewrite H. auto.
Qed.

Lemma logged_length (p : process) (c : call) :
  length (calls (logged p c)) = S (length (calls p)).
Proof. unfold logged. cbn. rewrite length_app. simpl. lia. Qed.

Lemma obind_ret_inv {A B} (o : outcome A) (k : A -> outcome B) (x : B) :
  obind o k = Ret x -> exists a, o = Ret a /\ k a = Ret x.
Proof. destruct o as [a | e]; simpl; [eauto | discriminate]. Qed.

(** ** Deduplication by [seen_ids] *)

Lemma add_all_first_seen (docs : list pdf_doc) (hybrid : list pdf_doc)
  (seen : gset (option Z)) :
  add_all docs (hybrid, seen)
  = ((hybrid ++ first_seen seen docs)%list,
     list_to_set (map doc_id docs) ∪ seen).
Proof.
  revert hybrid seen. induction docs as [|d docs IH]; intros hybrid seen.
  - simpl. rewrite app_nil_r. f_equal. set_solver.
  - cbn [add_all fold_left add_unique first_seen map list_to_set].
    destruct (decide (doc_id d ∈ seen)) as [Hin | Hni].
    + fold (add_all docs (hybrid, seen)). rewrite IH. f_equal. set_solver.
    + fold (add_all docs ((hybrid ++ [d])%list, {[doc_id d]} ∪ seen)).
      rewrite IH, <- app_assoc. simpl. f_equal. set_solver.
Qed.

Lemma add_all_app (l1 l2 : list pdf_doc) (acc : list pdf_doc * gset (option Z)) :
  add_all l2 (add_all l1 acc) = add_all (l1 ++ l2) acc.
Proof. unfold add_all. rewrite fold_left_app. reflexivity. Qed.

Lemma first_seen_fresh (seen : gset (option Z)) (docs : list pdf_doc) :
  forall d, In d (first_seen seen docs) -> (doc_id d ∉ seen) /\ In d docs.
Proof.
  revert seen. induction docs as [|d0 docs IH]; intros seen d; simpl;
    [tauto |].
  destruct (decide (doc_id d0 ∈ seen)) as [Hin | Hni].
  - intros H. destruct (IH _ _ H). auto.
  - intros [<- | H]; [auto |]. destruct (IH _ _ H) as [H1 H2].
    split; [set_solver | auto].
Qed.

(** No identifier is kept twice. *)
Lemma first_seen_nodup (seen : gset (option Z)) (docs : list pdf_doc) :
  List.NoDup (map doc_id (first_seen seen docs)).
Proof.
  revert seen. induction docs as [|d docs IH]; intros seen; simpl;
    [constructor |].
  destruct (decide (doc_id d ∈ seen)); [apply IH |].
  simpl. constructor; [| apply IH].
  intros Hin. apply in_map_iff in Hin. destruct Hin as [d' [Heq Hd']].
  apply first_seen_fresh in Hd'. destruct Hd' as [Hfresh _].
  rewrite Heq in Hfresh. set_solver.
Qed.

(** The kept rows come in the order of arrival. *)
Lemma first_seen_sublist (seen : gset (option Z)) (docs : list pdf_doc) :
  sublist (first_seen seen docs) docs.
Proof.
  revert seen. induction docs as [|d docs IH]; intros seen; simpl;
    [constructor |].
  destruct (decide (doc_id d ∈ seen)).
  - apply sublist_cons, IH.
  - apply sublist_skip, IH.
Qed.

(** Every identifier that arrives and was not seen before is kept, and the
    row kept for it is the first one that carries it. *)
Lemma first_seen_first (seen : gset (option Z)) (pre post : list pdf_doc)
  (d : pdf_doc) :
  doc_id d ∉ seen ->
  (forall d', In d' pre -> doc_id d' <> doc_id d) ->
  In d (first_seen seen (pre ++ d :: post)).
Proof.
  revert seen. induction pre as [|d0 pre IH]; intros seen Hfresh Hpre; simpl.
  - destruct (decide (doc_id d ∈ seen)); [contradiction | left; reflexivity].
  - assert (Hne : doc_id d0 <> doc_id d) by (apply Hpre; left; reflexivity).
    assert (Hpre' : forall d', In d' pre -> doc_id d' <> doc_id d)
      by (intros d' H; apply Hpre; right; exact H).
    destruct (decide (doc_id d0 ∈ seen)).
    + apply IH; assumption.
    + right. apply IH; [set_solver | assumption].
Qed.

Lemma first_seen_nonempty (d : pdf_doc) (docs : list pdf_doc) :
  first_seen ∅ (d :: docs) <> [].
Proof.
  simpl. destruct (decide (doc_id d ∈ (∅ : gset (option Z)))); [set_solver |].
  discriminate.
Qed.

(** ** The stages of the search *)

(** [get_embedding] logs nothing but calls to the embedding service. *)
Lemma get_embedding_log (b : backends) (text : string) (client : handle)
  (p : process) :
  exists l,
    calls (snd (get_embedding b text client p)) = (calls p ++ l)%list
    /\ Forall (fun c => is_embedding_call c = true) l.
Proof.
  unfold get_embedding, LRU.lookup_or_call.
  destruct (LRU.find (text, client) (embedding_cache p)) as [[[|]]|];
    cbn [awaited]; try rewrite get_embedding_body_run; cbn [snd calls].
  - exists []. rewrite app_nil_r. split; [reflexivity | constructor].
  - eexists. split; [reflexivity |]. repeat constructor.
  - eexists. split; [reflexivity |]. repeat constructor.
Qed.

(** A keyword loop that completes has issued the two searches of every
    keyword, in order, and has kept the rows they answered. *)
Lemma keyword_search_ret (b : backends) (kws : list string)
  (acc acc' : list pdf_doc * gset (option Z)) (p p' : process) :
  keyword_search b kws acc p = (Ret acc', p') ->
  acc' = add_all (keyword_rows b (length (calls p)) kws) acc
  /\ calls p'
     = (calls p ++ map answered (flat_map keyword_requests kws))%list
  /\ embedding_cache p' = embedding_cache p.
Proof.
  revert acc p. induction kws as [|kw kws IH]; intros acc p H.
  - simpl in H. injection H as <- <-. simpl. rewrite app_nil_r. auto.
  - cbn [keyword_search] in H.
    apply bind_ret_inv in H. destruct H as (rc & p1 & H1 & H).
    apply bind_ret_inv in H. destruct H as (rt & p2 & H2 & H).
    apply outbound_ret_inv in H1. destruct H1 as [Hc ->].
    apply outbound_ret_inv in H2. destruct H2 as [Ht ->].
    rewrite logged_length in Ht.
    apply IH in H. destruct H as (-> & -> & ->).
    rewrite !logged_length. cbn [keyword_rows]. rewrite Hc, Ht.
    cbn [rows_of]. rewrite !add_all_app.
    split; [reflexivity |]. split; [| reflexivity].
    unfold logged. cbn [flat_map keyword_requests map app calls].
    rewrite <- !app_assoc. reflexivity.
Qed.

(** When no substring search raises, the keyword loop completes. *)
Lemma keyword_search_completes (b : backends) (kws : list string)
  (acc : list pdf_doc * gset (option Z)) (p : process) :
  (forall n col pat lim,
      is_raise (ilike_pdf_documents b n col pat lim) = false) ->
  exists acc' p', keyword_search b kws acc p = (Ret acc', p').
Proof.
  intros Hok. revert acc p. induction kws as [|kw kws IH]; intros acc p.
  - simpl. unfold ret. eauto.
  - cbn [keyword_search]. unfold bind at 1, ilike at 1.
    rewrite outbound_run.
    pose proof (Hok (length (calls p)) content_column
                  ("%" +:+ kw +:+ "%") 10%nat) as Hc.
    destruct (ilike_pdf_documents b (length (calls p)) content_column
                ("%" +:+ kw +:+ "%") 10) as [rc | e]; [| discriminate].
    unfold bind at 1, ilike at 1. rewrite outbound_run.
    match goal with
    | |- context [ilike_pdf_documents b ?n title_column ?pat 10] =>
        pose proof (Hok n title_column pat 10%nat) as Ht;
        destruct (ilike_pdf_documents b n title_column pat 10) as [rt | e];
        [| discriminate]
    end.
    apply IH.
Qed.

(** Formatting and sorting leave the state alone. *)
Lemma combine_state (hybrid : list pdf_doc) (data : option (list web_doc))
  (p : process) : snd (combine hybrid data p) = p.
Proof.
  unfold combine, bind, lift, ret.
  destruct (iterate data) as [docs | e]; [| reflexivity].
  destruct (web_entries docs); reflexivity.
Qed.

Lemma retrieve_results_state (b : backends) (client : handle) (q : string)
  (p : process) :
  snd (retrieve_results b client q p) = snd (gather b client q p).
Proof.
  unfold retrieve_results, bind.
  destruct (gather b client q p) as [[[found | e] |] p1];
    [| reflexivity | reflexivity].
  apply combine_state.
Qed.

Lemma retrieve_state (b : backends) (client : handle) (q : string)
  (p : process) :
  snd (retrieve_relevant_content_unified b client q p)
  = snd (gather b client q p).
Proof.
  rewrite <- retrieve_results_state.
  unfold retrieve_relevant_content_unified, try_except, bind, ret.
  destruct (retrieve_results b client q p) as [[[rs | e] |] p1];
    reflexivity.
Qed.

(** The tool returns the rendering of the sorted list, or [""] when the
    body raises; a cancellation goes through. *)
Lemma retrieve_outcome (b : backends) (client : handle) (q : string)
  (p : process) :
  fst (retrieve_relevant_content_unified b client q p)
  = match fst (retrieve_results b client q p) with
    | Done (Ret rs) => Ret (render rs)
    | Done (Raise _) => Ret EmptyText
    | Cancelled => Cancelled
    end.
Proof.
  unfold retrieve_relevant_content_unified, try_except, bind, ret.
  destruct (retrieve_results b client q p) as [[[rs | e] |] p1];
    reflexivity.
Qed.

(** The search after its first two calls. *)
Lemma gather_run (b : backends) (client : handle) (q : string)
  (p p1 : process) (emb : list Q) (data : option (list pdf_doc)) :
  get_embedding b q client p = (Ret emb, p1) ->
  match_pdf_documents b (length (calls p1)) emb 0 10 = Ret data ->
  gather b client q p
  = (acc <- match first_seen ∅ (data_or_empty data) with
            | [] => keyword_search b (keywords q)
                      (add_all (data_or_empty data) ([], ∅))
            | _ :: _ => ret (add_all (data_or_empty data) ([], ∅))
            end ;;
     web_results <- outbound (MatchSitePages emb 10)
                      (fun n => match_site_pages b n emb 10) ;;
     ret (fst acc, web_results))
      (logged p1 (answered (MatchPdfDocuments emb 0 10))).
Proof.
  intros He Hd. unfold gather. unfold bind at 1. rewrite He.
  unfold bind at 1. rewrite outbound_run, Hd. cbn [is_raise].
  rewrite add_all_first_seen. cbn [fst app]. reflexivity.
Qed.

(** ** The keyword fallback *)

Lemma filter_substring_embedding (l : list call) :
  Forall (fun c => is_embedding_call c = true) l ->
  List.filter is_substring_search l = [].
Proof.
  induction 1 as [|c l Hc Hl IH]; [reflexivity |].
  simpl. rewrite IH. unfold is_embedding_call, is_substring_search in *.
  destruct (call_request c); try discriminate; reflexivity.
Qed.

Lemma filter_substring_keywords (kws : list string) :
  map call_request
    (List.filter is_substring_search
       (map answered (flat_map keyword_requests kws)))
  = flat_map keyword_requests kws.
Proof.
  induction kws as [|kw kws IH]; [reflexivity |].
  cbn [flat_map keyword_requests app map List.filter is_substring_search
         answered call_request]. rewrite IH. reflexivity.
Qed.

Lemma keyword_requests_count (kws : list string) :
  length (flat_map keyword_requests kws) = (2 * length kws)%nat.
Proof.
  induction kws as [|kw kws IH]; [reflexivity |].
  cbn [flat_map keyword_requests app length]. rewrite IH. lia.
Qed.

Lemma issued_app (p p' : process) (l : list call) :
  calls p' = (calls p ++ l)%list -> issued p p' = l.
Proof. intros H. unfold issued. rewrite H. apply drop_app_length. Qed.

Lemma no_search_after_vector_hit (b : backends) (client : handle)
  (q : string) (p p1 : process) (emb : list Q)
  (data : option (list pdf_doc)) :
  get_embedding b q client p = (Ret emb, p1) ->
  match_pdf_documents b (length (calls p1)) emb 0 10 = Ret data ->
  data_or_empty data <> [] ->
  List.filter is_substring_search
    (issued p (snd (retrieve_relevant_content_unified b client q p)))
  = [].
Proof.
  intros He Hd Hne.
  rewrite retrieve_state, (gather_run _ _ _ _ _ _ _ He Hd).
  destruct (get_embedding_log b q client p) as (l1 & Hl1 & Hemb).
  rewrite He in Hl1. cbn [snd] in Hl1.
  destruct (data_or_empty data) as [|d vec]; [congruence |].
  pose proof (first_seen_nonempty d vec) as Hfs.
  destruct (first_seen ∅ (d :: vec)) as [|d' kept]; [congruence |].
  unfold bind at 1, ret at 1. unfold bind at 1. rewrite outbound_run.
  assert (Hlog : forall flag,
    calls (logged (logged p1 (answered (MatchPdfDocuments emb 0 10)))
             {| call_request := MatchSitePages emb 10;
                call_failed := flag |})
    = (calls p ++ l1 ++ [answered (MatchPdfDocuments emb 0 10);
                         {| call_request := MatchSitePages emb 10;
                            call_failed := flag |}])%list).
  { intros flag. unfold logged. cbn [calls].
    rewrite Hl1, <- !app_assoc. reflexivity. }
  match goal with
  | |- context [match ?o with Ret _ => _ | Raise _ => _ end] =>
      destruct o as [w | e]
  end; cbn [snd ret]; rewrite (issued_app _ _ _ (Hlog _)),
    List.filter_app, (filter_substring_embedding _ Hemb); reflexivity.
Qed.

Lemma filter_substring_all (l : list call) :
  Forall (fun c => is_substring_search c = true) l ->
  List.filter is_substring_search l = l.
Proof.
  induction 1 as [|c l Hc Hl IH]; [reflexivity |].
  simpl. rewrite Hc, IH. reflexivity.
Qed.

Lemma failure_ends_nil : failure_ends [].
Proof. intros [|c0 before] c after Heq; discriminate. Qed.

Lemma failure_ends_single (c : call) : failure_ends [c].
Proof.
  intros [|c0 before] c' after Heq Hf.
  - injection Heq as _ <-. reflexivity.
  - destruct before; discriminate.
Qed.

Lemma failure_ends_cons (c : call) (l : list call) :
  call_failed c = false -> failure_ends l -> failure_ends (c :: l).
Proof.
  intros Hc Hl [|c0 before] c' after Heq Hf.
  - injection Heq as <- _. congruence.
  - injection Heq as _ Heq. exact (Hl _ _ _ Heq Hf).
Qed.

(** The log of the keyword loop, whatever the store does: the searches
    issued are the first ones of the searches of the keywords, a search that
    raises is the last one, and when none has raised all of them have been
    issued. *)
Lemma keyword_search_log (b : backends) (kws : list string)
  (acc : list pdf_doc * gset (option Z)) (p : process) :
  exists l,
    calls (snd (keyword_search b kws acc p)) = (calls p ++ l)%list
    /\ Forall (fun c => is_substring_search c = true) l
    /\ (exists k,
          map call_request l = firstn k (flat_map keyword_requests kws))
    /\ failure_ends l
    /\ (Forall (fun c => call_failed c = false) l ->
        map call_request l = flat_map keyword_requests kws).
Proof.
  revert acc p. induction kws as [|kw kws IH]; intros acc p.
  - exists []. cbn. rewrite app_nil_r.
    split; [reflexivity |]. split; [constructor |].
    split; [exists 0%nat; reflexivity |].
    split; [apply failure_ends_nil | reflexivity].
  - cbn [keyword_search]. unfold bind at 1, ilike at 1.
    rewrite outbound_run.
    destruct (ilike_pdf_documents b (length (calls p)) content_column
                ("%" +:+ kw +:+ "%") 10) as [rc | e].
    + unfold bind at 1, ilike at 1. rewrite outbound_run.
      match goal with
      | |- context [ilike_pdf_documents b ?n title_column ?pat 10] =>
          destruct (ilike_pdf_documents b n title_column pat 10) as [rt | e]
      end.
      * match goal with
        | |- context [keyword_search b kws ?acc' ?p'] =>
            destruct (IH acc' p') as (l & Hl & Hsub & [k Hk] & Hend & Hall)
        end.
        eexists (_ :: _ :: l). rewrite Hl. unfold logged. cbn [calls].
        rewrite <- !app_assoc.
        split; [reflexivity |].
        split; [repeat constructor; exact Hsub |].
        split; [exists (S (S k)); cbn; rewrite Hk; reflexivity |].
        split;
          [apply failure_ends_cons; [reflexivity |];
           apply failure_ends_cons; [reflexivity | exact Hend] |].
        intros Hok. inversion Hok as [|? ? _ Hok1]; subst.
        inversion Hok1 as [|? ? _ Hok2]; subst.
        cbn. rewrite (Hall Hok2). reflexivity.
      * eexists [_; _]. unfold logged. cbn [fst snd calls].
        rewrite <- !app_assoc.
        split; [reflexivity |].
        split; [repeat constructor |].
        split; [exists 2%nat; reflexivity |].
        split;
          [apply failure_ends_cons; [reflexivity |];
           apply failure_ends_single |].
        intros Hok. inversion Hok as [|? ? _ Hok1]; subst.
        inversion Hok1 as [|? ? Hf _]; subst. discriminate.
    + eexists [_]. unfold logged. cbn [fst snd calls].
      split; [reflexivity |].
      split; [repeat constructor |].
      split; [exists 1%nat; reflexivity |].
      split; [apply failure_ends_single |].
      intros Hok. inversion Hok as [|? ? Hf _]; subst. discriminate.
Qed.

Lemma searches_after_vector_miss (b : backends) (client : handle)
  (q : string) (p p1 : process) (emb : list Q)
  (data : option (list pdf_doc)) :
  get_embedding b q client p = (Ret emb, p1) ->
  match_pdf_documents b (length (calls p1)) emb 0 10 = Ret data ->
  data_or_empty data = [] ->
  let searches :=
    List.filter is_substring_search
      (issued p (snd (retrieve_relevant_content_unified b client q p))) in
  (exists k,
      map call_request searches
      = firstn k (flat_map keyword_requests (keywords q)))
  /\ failure_ends searches
  /\ (Forall (fun c => call_failed c = false) searches ->
      map call_request searches = flat_map keyword_requests (keywords q)).
Proof.
  intros He Hd Hempty searches.
  destruct (get_embedding_log b q client p) as (l1 & Hl1 & Hemb).
  rewrite He in Hl1. cbn [snd] in Hl1.
  destruct (keyword_search_log b (keywords q) (add_all [] ([], ∅))
              (logged p1 (answered (MatchPdfDocuments emb 0 10))))
    as (l & Hl & Hsub & Hpre & Hend & Hall).
  enough (Hs : searches = l) by (rewrite Hs; auto).
  unfold searches.
  rewrite retrieve_state, (gather_run _ _ _ _ _ _ _ He Hd).
  rewrite Hempty. cbn [first_seen data_or_empty]. unfold bind at 1.
  destruct (keyword_search b (keywords q) (add_all [] ([], ∅))
              (logged p1 (answered (MatchPdfDocuments emb 0 10))))
    as [[[acc' | e] |] p3]; cbn [snd] in Hl |- *.
  - unfold bind at 1. rewrite outbound_run.
    assert (Hlog : forall flag,
      calls (logged p3 {| call_request := MatchSitePages emb 10;
                          call_failed := flag |})
      = (calls p ++ l1 ++ [answered (MatchPdfDocuments emb 0 10)]
         ++ l ++ [{| call_request := MatchSitePages emb 10;
                     call_failed := flag |}])%list).
    { intros flag. unfold logged at 1. cbn [calls]. rewrite Hl.
      unfold logged. cbn [calls]. rewrite Hl1, <- !app_assoc. reflexivity. }
    match goal with
    | |- context [match ?o with Ret _ => _ | Raise _ => _ end] =>
        destruct o as [w | e]
    end; cbn [snd ret]; rewrite (issued_app _ _ _ (Hlog _)),
      List.filter_app, (filter_substring_embedding _ Hemb);
      cbn [app List.filter is_substring_search answered call_request];
      rewrite List.filter_app, (filter_substring_all _ Hsub);
      cbn [List.filter is_substring_search call_request];
      apply app_nil_r.
  - assert (Hlog : calls p3
      = (calls p ++ l1 ++ [answered (MatchPdfDocuments emb 0 10)]
         ++ l)%list).
    { rewrite Hl. unfold logged. cbn [calls].
      rewrite Hl1, <- !app_assoc. reflexivity. }
    rewrite (issued_app _ _ _ Hlog),
      List.filter_app, (filter_substring_embedding _ Hemb).
    cbn [app List.filter is_substring_search answered call_request].
    apply (filter_substring_all _ Hsub).
  - assert (Hlog : calls p3
      = (calls p ++ l1 ++ [answered (MatchPdfDocuments emb 0 10)]
         ++ l)%list).
    { rewrite Hl. unfold logged. cbn [calls].
      rewrite Hl1, <- !app_assoc. reflexivity. }
    rewrite (issued_app _ _ _ Hlog),
      List.filter_app, (filter_substring_embedding _ Hemb).
    cbn [app List.filter is_substring_search answered call_request].
    apply (filter_substring_all _ Hsub).
Qed.

(** C1 (amended).  Let the embedding be obtained and the PDF vector search
    answer.  The keywords are the lowercased query, then its lowercased
    whitespace-separated tokens, then "class", "classification", "device",
    "medical".  If the vector search answers at least one row, no substring
    search is issued.  If it answers none, the substring searches issued
    are, keyword by keyword, one on the content and one on the title, each
    limited to 10 rows, up to the first search that raises, which is the
    last one; when no search has raised they are all there, twice as many
    as there are keywords. *)
Theorem keyword_fallback_calls (b : backends) (client : handle) (q : string)
  (p p1 : process) (emb : list Q) (data : option (list pdf_doc)) :
  get_embedding b q client p = (Ret emb, p1) ->
  match_pdf_documents b (length (calls p1)) emb 0 10 = Ret data ->
  let p' := snd (retrieve_relevant_content_unified b client q p) in
  let searches := List.filter is_substring_search (issued p p') in
  keywords q
  = lower q
    :: (split (lower q) ++ ["class"; "classification"; "device"; "medical"])
  /\ (data_or_empty data <> [] -> searches = [])
  /\ (data_or_empty data = [] ->
      (exists k,
          map call_request searches
          = firstn k (flat_map keyword_requests (keywords q)))
      /\ (forall before c after,
            searches = (before ++ c :: after)%list ->
            call_failed c = true -> after = [])
      /\ (Forall (fun c => call_failed c = false) searches ->
          map call_request searches = flat_map keyword_requests (keywords q)
          /\ length searches = (2 * length (keywords q))%nat)).
Proof.
  intros He Hd p' searches. split; [reflexivity |]. split.
  - intros Hne. exact (no_search_after_vector_hit _ _ _ _ _ _ _ He Hd Hne).
  - intros Hempty.
    destruct (searches_after_vector_miss _ _ _ _ _ _ _ He Hd Hempty)
      as (Hpre & Hend & Hall).
    split; [exact Hpre |]. split; [exact Hend |].
    intros Hok. pose proof (Hall Hok) as Hreq. split; [exact Hreq |].
    transitivity (length (map call_request searches));
      [symmetry; apply length_map |].
    unfold searches, p'. rewrite Hreq. apply keyword_requests_count.
Qed.

(** ** The shape of a completed search *)

Lemma gather_inv (b : backends) (client : handle) (q : string)
  (p p' : process) (hybrid : list pdf_doc) (wr : option (list web_doc)) :
  gather b client q p = (Ret (hybrid, wr), p') ->
  exists emb p1 data n,
    get_embedding b q client p = (Ret emb, p1)
    /\ match_pdf_documents b (length (calls p1)) emb 0 10 = Ret data
    /\ match_site_pages b n emb 10 = Ret wr
    /\ hybrid
       = first_seen ∅ (pdf_stage_rows b (S (length (calls p1))) q data).
Proof.
  intros Hg. unfold gather in Hg.
  apply bind_ret_inv in Hg. destruct Hg as (emb & p1 & He & Hg).
  apply bind_ret_inv in Hg. destruct Hg as (data & pA & Hd & Hg).
  apply outbound_ret_inv in Hd. destruct Hd as [Hd ->].
  apply bind_ret_inv in Hg. destruct Hg as (acc & pB & Hacc & Hg).
  apply bind_ret_inv in Hg. destruct Hg as (wr' & pC & Hw & Hg).
  apply outbound_ret_inv in Hw. destruct Hw as [Hw ->].
  injection Hg as <- <- _.
  exists emb, p1, data, (length (calls pB)).
  repeat (split; [assumption |]).
  unfold pdf_stage_rows.
  rewrite add_all_first_seen in Hacc. cbn [fst app] in Hacc.
  destruct (data_or_empty data) as [|d vec] eqn:Hvec.
  - cbn [first_seen] in Hacc. apply keyword_search_ret in Hacc.
    destruct Hacc as (-> & _ & _). rewrite logged_length.
    rewrite add_all_first_seen. reflexivity.
  - pose proof (first_seen_nonempty d vec) as Hne.
    destruct (first_seen ∅ (d :: vec)) as [|d' kept] eqn:Hfs; [congruence |].
    injection Hacc as <- _. cbn [fst]. rewrite app_nil_r. symmetry. exact Hfs.
Qed.

Lemma combine_inv (hybrid : list pdf_doc) (wr : option (list web_doc))
  (p p' : process) (rs : list result) :
  combine hybrid wr p = (Ret rs, p') ->
  exists docs es,
    wr = Some docs /\ web_entries docs = Ret es /\ p' = p
    /\ rs = sort_desc similarity_leb (map pdf_entry hybrid ++ es).
Proof.
  intros Hc. unfold combine in Hc.
  apply bind_ret_inv in Hc. destruct Hc as (docs & p3 & Hit & Hc).
  apply lift_ret_inv in Hit. destruct Hit as [Hit ->].
  apply bind_ret_inv in Hc. destruct Hc as (es & p4 & Hes & Hc).
  apply lift_ret_inv in Hes. destruct Hes as [Hes ->].
  injection Hc as <- <-.
  destruct wr as [docs' |]; [| discriminate]. injection Hit as ->.
  exists docs, es. auto.
Qed.

Lemma retrieve_results_gather (b : backends) (client : handle) (q : string)
  (p p' : process) (rs : list result) :
  retrieve_results b client q p = (Ret rs, p') ->
  exists hybrid docs es,
    gather b client q p = (Ret (hybrid, Some docs), p')
    /\ web_entries docs = Ret es
    /\ rs = sort_desc similarity_leb (map pdf_entry hybrid ++ es).
Proof.
  intros H. unfold retrieve_results in H.
  apply bind_ret_inv in H. destruct H as ([hybrid wr] & p2 & Hg & Hc).
  cbn [fst snd] in Hc. apply combine_inv in Hc. destruct Hc as (docs & es & -> & Hes & -> & ->).
  exists hybrid, docs, es. auto.
Qed.

Lemma retrieve_results_inv (b : backends) (client : handle) (q : string)
  (p p' : process) (rs : list result) :
  retrieve_results b client q p = (Ret rs, p') ->
  exists emb p1 data n docs es,
    get_embedding b q client p = (Ret emb, p1)
    /\ match_pdf_documents b (length (calls p1)) emb 0 10 = Ret data
    /\ match_site_pages b n emb 10 = Ret (Some docs)
    /\ web_entries docs = Ret es
    /\ rs = sort_desc similarity_leb
              (map pdf_entry
                 (first_seen ∅
                    (pdf_stage_rows b (S (length (calls p1))) q data))
               ++ es).
Proof.
  intros H. apply retrieve_results_gather in H.
  destruct H as (hybrid & docs & es & Hg & Hes & ->).
  apply gather_inv in Hg. destruct Hg as (emb & p1 & data & n & ? & ? & ? & ->).
  exists emb, p1, data, n, docs, es. auto.
Qed.

(** ** The log of a search *)

Lemma contained_app (l1 l2 : list call) :
  contained l1 -> contained l2 -> contained (l1 ++ l2).
Proof. unfold contained. intros H1 H2. apply Forall_app. auto. Qed.

Lemma contained_removelast (l : list call) :
  contained l -> contained (removelast l).
Proof.
  unfold contained. rewrite !List.Forall_forall. intros H c Hc.
  apply H. exact (removelast_incl _ _ Hc).
Qed.

Lemma contained_embedding (l : list call) :
  Forall (fun c => is_embedding_call c = true) l -> contained l.
Proof.
  unfold contained. apply List.Forall_impl. intros c Hc.
  unfold is_store_call. rewrite Hc. discriminate.
Qed.

Lemma disciplined_ret {A} (a : A) : disciplined (ret a).
Proof.
  intros p. exists []. rewrite app_nil_r. split; [reflexivity | constructor].
Qed.

Lemma disciplined_lift {A} (o : outcome A) : disciplined (lift o).
Proof.
  intros p. exists []. rewrite app_nil_r. split; [reflexivity |].
  destruct o; constructor.
Qed.

Lemma disciplined_outbound {A} (rq : request) (answer : nat -> outcome A) :
  disciplined (outbound rq answer).
Proof.
  intros p. rewrite outbound_run. eexists. split; [reflexivity |].
  cbn [fst]. destruct (answer (length (calls p))); cbn.
  - constructor; [reflexivity | constructor].
  - constructor.
Qed.

Lemma disciplined_bind {A B} (m : M A) (k : A -> M B) :
  disciplined m -> (forall a, disciplined (k a)) -> disciplined (bind m k).
Proof.
  intros Hm Hk p. unfold bind.
  destruct (Hm p) as (l1 & Hl1 & Hc1).
  destruct (m p) as [[[a | e] |] p1]; cbn [fst snd] in *.
  - destruct (Hk a p1) as (l2 & Hl2 & Hc2).
    exists (l1 ++ l2)%list. rewrite Hl2, Hl1, <- app_assoc.
    split; [reflexivity |].
    destruct (fst (k a p1)) as [[b | e] |].
    + apply contained_app; assumption.
    + destruct l2 as [|c l2].
      * rewrite app_nil_r. apply contained_removelast. exact Hc1.
      * rewrite removelast_app by discriminate.
        apply contained_app; assumption.
    + apply contained_app; assumption.
  - exists l1. auto.
  - exists l1. auto.
Qed.

Lemma disciplined_get_embedding (b : backends) (text : string)
  (client : handle) : disciplined (get_embedding b text client).
Proof.
  intros p. destruct (get_embedding_log b text client p) as (l & Hl & He).
  exists l. split; [exact Hl |].
  apply contained_embedding in He.
  destruct (fst _) as [[v | e] |];
    [exact He | apply contained_removelast; exact He | exact He].
Qed.

Lemma disciplined_keyword_search (b : backends) (kws : list string)
  (acc : list pdf_doc * gset (option Z)) :
  disciplined (keyword_search b kws acc).
Proof.
  revert acc. induction kws as [|kw kws IH]; intros acc.
  - apply disciplined_ret.
  - cbn [keyword_search].
    apply disciplined_bind; [apply disciplined_outbound |]. intros rc.
    apply disciplined_bind; [apply disciplined_outbound |]. intros rt.
    apply IH.
Qed.

Lemma disciplined_retrieve_results (b : backends) (client : handle)
  (q : string) : disciplined (retrieve_results b client q).
Proof.
  unfold retrieve_results, gather, combine.
  repeat first
    [ apply disciplined_bind; [| intros ?]
    | apply disciplined_get_embedding
    | apply disciplined_outbound
    | apply disciplined_keyword_search
    | apply disciplined_lift
    | apply disciplined_ret
    | match goal with
      | |- disciplined (match ?x with [] => _ | _ :: _ => _ end) =>
          destruct x
      end ].
Qed.

(** What a run has issued, and how it ended. *)
Lemma retrieve_log (b : backends) (client : handle) (q : string)
  (p : process) :
  let r := retrieve_relevant_content_unified b client q p in
  match fst (retrieve_results b client q p) with
  | Done (Raise _) =>
      fst r = Ret EmptyText /\ contained (removelast (issued p (snd r)))
  | _ => contained (issued p (snd r))
  end.
Proof.
  intros r. subst r. rewrite retrieve_outcome, retrieve_state,
    <- retrieve_results_state.
  destruct (disciplined_retrieve_results b client q p) as (l & Hl & Hc).
  rewrite (issued_app _ _ _ Hl).
  destruct (fst (retrieve_results b client q p)) as [[rs | e] |]; auto.
Qed.

(** ** Failures of the stores *)

(** C2 (amended).  An exception raised by a call to a content store (PDF
    vector search, PDF substring search, web vector search) ends the whole
    search: the tool returns the empty text, and the failed call is the last
    call of the run, all store calls before it having been answered. *)
Theorem store_failure_aborts_search (b : backends) (client : handle)
  (q : string) (p : process) (c : call) :
  let r := retrieve_relevant_content_unified b client q p in
  In c (issued p (snd r)) ->
  is_store_call c = true ->
  call_failed c = true ->
  fst r = Ret EmptyText
  /\ exists before, issued p (snd r) = (before ++ [c])%list /\ contained before.
Proof.
  intros r Hin Hstore Hfailed. pose proof (retrieve_log b client q p) as Hlog.
  cbv zeta in Hlog. fold r in Hlog.
  assert (Hbad : forall l, contained l -> ~ In c l).
  { intros l Hl Hc. unfold contained in Hl. rewrite List.Forall_forall in Hl.
    specialize (Hl c Hc Hstore). congruence. }
  destruct (fst (retrieve_results b client q p)) as [[rs | e] |];
    [exfalso; exact (Hbad _ Hlog Hin) | | exfalso; exact (Hbad _ Hlog Hin)].
  - destruct Hlog as [Hout Hrest]. split; [exact Hout |].
    exists (removelast (issued p (snd r))).
    destruct (issued p (snd r)) as [|c0 l] eqn:Hl; [destruct Hin |].
    rewrite <- Hl in *.
    assert (Hne : issued p (snd r) <> []) by (rewrite Hl; discriminate).
    pose proof (app_removelast_last c Hne) as Hsplit.
    split; [| exact Hrest].
    rewrite Hsplit in Hin. apply in_app_or in Hin.
    destruct Hin as [Hin | [Hin | []]]; [exfalso; exact (Hbad _ Hrest Hin) |].
    rewrite Hin in Hsplit. exact Hsplit.
Qed.

Lemma keyword_rows_no_matches (b : backends) (n : nat) (kws : list string) :
  no_matches b -> keyword_rows b n kws = [].
Proof.
  intros (_ & Hk & _). revert n. induction kws as [|kw kws IH]; intros n;
    [reflexivity |].
  cbn [keyword_rows].
  destruct (Hk n content_column ("%" +:+ kw +:+ "%") 10%nat) as (d1 & -> & H1).
  destruct (Hk (S n) title_column ("%" +:+ kw +:+ "%") 10%nat)
    as (d2 & -> & H2).
  cbn [rows_of]. rewrite H1, H2, IH. reflexivity.
Qed.

(** *** Cancellation *)

Lemma synchronous_ret {A} (a : A) : synchronous (ret a).
Proof. intros p. discriminate. Qed.

Lemma synchronous_lift {A} (o : outcome A) : synchronous (lift o).
Proof. intros p. discriminate. Qed.

Lemma synchronous_outbound {A} (rq : request) (answer : nat -> outcome A) :
  synchronous (outbound rq answer).
Proof. intros p. discriminate. Qed.

Lemma synchronous_bind {A B} (m : M A) (k : A -> M B) :
  synchronous m -> (forall a, synchronous (k a)) -> synchronous (bind m k).
Proof.
  intros Hm Hk p. unfold bind. specialize (Hm p).
  destruct (m p) as [[[a | e] |] p1]; cbn [fst] in *;
    [apply Hk | discriminate | congruence].
Qed.

Lemma synchronous_keyword_search (b : backends) (kws : list string)
  (acc : list pdf_doc * gset (option Z)) :
  synchronous (keyword_search b kws acc).
Proof.
  revert acc. induction kws as [|kw kws IH]; intros acc.
  - apply synchronous_ret.
  - cbn [keyword_search].
    apply synchronous_bind; [apply synchronous_outbound |]. intros rc.
    apply synchronous_bind; [apply synchronous_outbound |]. intros rt.
    apply IH.
Qed.

(** Only the first statement of a sequence can be cancelled when the rest
    awaits nothing. *)
Lemma bind_cancelled {A B} (m : M A) (k : A -> M B) (p : process) :
  (forall a, synchronous (k a)) ->
  fst (bind m k p) = Cancelled ->
  fst (m p) = Cancelled /\ snd (bind m k p) = snd (m p).
Proof.
  intros Hk. unfold bind.
  destruct (m p) as [[[a | e] |] p1]; cbn [fst snd].
  - intros Hc. exfalso. exact (Hk a p1 Hc).
  - discriminate.
  - auto.
Qed.

Lemma get_embedding_cancelled (b : backends) (text : string)
  (client : handle) (p : process) :
  fst (get_embedding b text client p) = Cancelled ->
  embeddings_create b (length (calls p)) client text 1536 = Cancelled
  /\ calls (snd (get_embedding b text client p))
     = (calls p ++ [answered (EmbeddingsCreate text 1536)])%list.
Proof.
  unfold get_embedding, LRU.lookup_or_call.
  destruct (LRU.find (text, client) (embedding_cache p)) as [[[|]]|];
    cbn [awaited]; try rewrite get_embedding_body_run; cbn [fst snd calls];
    try discriminate;
    destruct (embeddings_create b (length (calls p)) client text 1536)
      as [[data | e] |]; try discriminate; intros _; split; reflexivity.
Qed.

(** A search is cancelled exactly when its [await get_embedding(...)] is. *)
Lemma retrieve_cancelled (b : backends) (client : handle) (q : string)
  (p : process) :
  fst (retrieve_relevant_content_unified b client q p) = Cancelled
  <-> fst (get_embedding b q client p) = Cancelled.
Proof.
  rewrite retrieve_outcome. unfold retrieve_results, gather.
  assert (Hrest : forall emb : list Q,
    synchronous
      (pdf_results <- outbound (MatchPdfDocuments emb 0 10)
                        (fun n => match_pdf_documents b n emb 0 10) ;;
       acc <- match fst (add_all (data_or_empty pdf_results) ([], ∅)) with
              | [] => keyword_search b (keywords q)
                        (add_all (data_or_empty pdf_results) ([], ∅))
              | _ :: _ => ret (add_all (data_or_empty pdf_results) ([], ∅))
              end ;;
       web_results <- outbound (MatchSitePages emb 10)
                        (fun n => match_site_pages b n emb 10) ;;
       ret (fst acc, web_results))).
  { intros emb.
    apply synchronous_bind; [apply synchronous_outbound |]. intros data.
    apply synchronous_bind.
    - destruct (fst (add_all (data_or_empty data) ([], ∅)));
        [apply synchronous_keyword_search | apply synchronous_ret].
    - intros acc. apply synchronous_bind; [apply synchronous_outbound |].
      intros w. apply synchronous_ret. }
  assert (Hcombine : forall found : list pdf_doc * option (list web_doc),
    synchronous (combine (fst found) (snd found))).
  { intros found. unfold combine.
    apply synchronous_bind; [apply synchronous_lift |]. intros docs.
    apply synchronous_bind; [apply synchronous_lift |]. intros es.
    apply synchronous_ret. }
  split.
  - intros Hc.
    match type of Hc with
    | match fst (bind ?m ?k p) with _ => _ end = _ =>
        destruct (fst (bind m k p)) as [[rs | e] |] eqn:Hb;
        [discriminate | discriminate |];
        apply bind_cancelled in Hb; [| exact Hcombine];
        destruct Hb as [Hb _];
        apply bind_cancelled in Hb; [| exact Hrest];
        exact (proj1 Hb)
    end.
  - intros Hc. unfold bind at 1. unfold bind at 1.
    destruct (get_embedding b q client p) as [[[emb | e] |] p1];
      cbn [fst] in Hc; try discriminate. reflexivity.
Qed.

(** C3 (amended).  The tool raises no exception derived from [Exception],
    whatever the services do: it returns a text, or it is cancelled.  It is
    cancelled only while it waits for the embedding, with nothing but that
    request issued, and a cancellation that arrives when the query is not in
    the embedding store goes through to the caller.  When the tool returns
    and a call to a content store has raised, the text is empty; when every
    search is answered and finds nothing, the text is empty as well: the two
    cases return the same value. *)
Theorem search_never_raises (b : backends) (client : handle) (q : string)
  (p : process) :
  let r := retrieve_relevant_content_unified b client q p in
  (fst r = Cancelled \/ exists t, fst r = Ret t)
  /\ (fst r = Cancelled ->
      embeddings_create b (length (calls p)) client q 1536 = Cancelled
      /\ issued p (snd r) = [answered (EmbeddingsCreate q 1536)])
  /\ (LRU.find (q, client) (embedding_cache p) = None ->
      embeddings_create b (length (calls p)) client q 1536 = Cancelled ->
      fst r = Cancelled)
  /\ (forall t,
        fst r = Ret t ->
        ((exists c, In c (issued p (snd r)) /\ is_store_call c = true
                    /\ call_failed c = true) -> t = EmptyText)
        /\ (no_matches b -> t = EmptyText)).
Proof.
  intros r. pose proof (retrieve_log b client q p) as Hlog.
  cbv zeta in Hlog. fold r in Hlog.
  pose proof (retrieve_outcome b client q p) as Hout. fold r in Hout.
  split; [| split; [| split]].
  - rewrite Hout.
    destruct (fst (retrieve_results b client q p)) as [[rs | e] |]; eauto.
  - intros Hc. pose proof Hc as Hc'. unfold r in Hc'.
    apply retrieve_cancelled in Hc'.
    pose proof (get_embedding_cancelled _ _ _ _ Hc') as [Hans Hcalls].
    split; [exact Hans |].
    apply issued_app. unfold r. rewrite retrieve_state.
    unfold gather. unfold bind at 1.
    destruct (get_embedding b q client p) as [[[emb | e] |] p1];
      cbn [fst snd] in *; try discriminate. exact Hcalls.
  - intros Hf Hans. unfold r. apply retrieve_cancelled.
    rewrite (get_embedding_miss _ _ _ _ Hf), Hans. reflexivity.
  - intros t Ht. rewrite Ht in Hout.
    destruct (retrieve_results b client q p) as [[[rs | e] |] p'] eqn:Hrun;
      cbn [fst] in *; try discriminate.
    + injection Hout as ->. split.
      * intros (c & Hin & Hstore & Hfailed). exfalso.
        unfold contained in Hlog. rewrite List.Forall_forall in Hlog.
        specialize (Hlog c Hin Hstore). congruence.
      * intros Hnm.
        apply retrieve_results_inv in Hrun.
        destruct Hrun as (emb & p1 & data & n & docs & es
                          & _ & Hd & Hw & Hes & ->).
        pose proof Hnm as (Hv & _ & Hweb).
        destruct (Hv (length (calls p1)) emb 0%Q 10%nat)
          as (d & Hd' & Hempty).
        rewrite Hd in Hd'. injection Hd' as ->.
        rewrite (Hweb n emb 10%nat) in Hw. injection Hw as <-.
        injection Hes as <-.
        unfold pdf_stage_rows.
        rewrite Hempty, (keyword_rows_no_matches _ _ _ Hnm). reflexivity.
    + injection Hout as ->. auto.
Qed.

Lemma empty_stores_no_matches : no_matches empty_stores.
Proof.
  repeat split; intros; try (eexists; split; reflexivity).
Qed.

(** ** Order and identity of the returned entries *)

Lemma similarity_leb_total (a b : result) :
  similarity_leb a b = true \/ similarity_leb b a = true.
Proof.
  unfold similarity_leb. rewrite !Qle_bool_iff.
  destruct (Qlt_le_dec (similarity_key b) (similarity_key a)) as [H | H];
    [right; apply Qlt_le_weak; exact H | left; exact H].
Qed.

Lemma similarity_leb_trans (a b c : result) :
  similarity_leb a b = true -> similarity_leb b c = true ->
  similarity_leb a c = true.
Proof. unfold similarity_leb. rewrite !Qle_bool_iff. apply Qle_trans. Qed.

Lemma has_similarity_leb (k : Q) (a b : result) :
  has_similarity k a = true -> has_similarity k b = true ->
  similarity_leb a b = true.
Proof.
  unfold has_similarity, similarity_leb. intros Ha Hb.
  apply Qeq_bool_iff in Ha, Hb. apply Qle_bool_iff.
  rewrite Ha, Hb. apply Qle_refl.
Qed.

(** A missing or null similarity counts as 0; a number counts as itself. *)
Lemma or_zero_spec (v : option Q) :
  match v with
  | None => or_zero v = 0%Q
  | Some s => (or_zero v == s)%Q
  end.
Proof.
  destruct v as [s|]; [| reflexivity]. simpl.
  destruct (Qeq_bool s 0) eqn:E; [| reflexivity].
  apply Qeq_bool_iff in E. symmetry. exact E.
Qed.

Lemma web_entry_type (d : web_doc) (e : result) :
  web_entry d = Ret e -> res_type e = web.
Proof.
  unfold web_entry. intros H.
  do 4 (apply obind_ret_inv in H; destruct H as (? & _ & H)).
  injection H as <-. reflexivity.
Qed.

(** The entries of the web rows: one per row, in the order of the rows. *)
Lemma web_entries_rows (docs : list web_doc) (es : list result) :
  web_entries docs = Ret es -> Forall2 (fun d e => web_entry d = Ret e) docs es.
Proof.
  revert es. induction docs as [|d docs IH]; intros es H.
  - injection H as <-. constructor.
  - cbn [web_entries] in H.
    apply obind_ret_inv in H. destruct H as (e & He & H).
    apply obind_ret_inv in H. destruct H as (es' & Hes & H).
    injection H as <-. constructor; [exact He | apply IH; exact Hes].
Qed.

Lemma retrieve_json_inv (b : backends) (client : handle) (q : string)
  (p p' : process) (rs : list result) :
  retrieve_relevant_content_unified b client q p = (Ret (JsonText rs), p') ->
  retrieve_results b client q p = (Ret rs, p').
Proof.
  unfold retrieve_relevant_content_unified, try_except, bind, ret.
  destruct (retrieve_results b client q p) as [[[rs0 | e] |] p0];
    [| discriminate | discriminate].
  destruct rs0 as [|x rs0]; [discriminate |].
  cbn [render]. intros [= <- <-]. reflexivity.
Qed.

(** C4.  The returned entries are in descending order of similarity, an
    entry without similarity counting as 0: no entry of positive similarity
    comes after it, and it is not dropped, the returned entries being those
    made of the PDF rows and of the web rows, rearranged.  Three passages
    with similarities 0.9 (PDF), none (PDF) and 0.95 (web) come out as
    0.95, 0.9, none. *)
Theorem results_sorted_by_similarity (b : backends) (client : handle)
  (q : string) (p p' : process) (rs : list result) :
  retrieve_relevant_content_unified b client q p = (Ret (JsonText rs), p') ->
  StronglySorted (fun x y => (similarity_key y <= similarity_key x)%Q) rs
  /\ (forall x, res_similarity x = None -> similarity_key x = 0%Q)
  /\ (forall x s, res_similarity x = Some s -> (similarity_key x == s)%Q)
  /\ (forall before x after y,
        rs = (before ++ x :: after)%list ->
        res_similarity x = None -> In y after ->
        ~ (0 < similarity_key y)%Q)
  /\ (exists emb p1 data n docs es,
        get_embedding b q client p = (Ret emb, p1)
        /\ match_pdf_documents b (length (calls p1)) emb 0 10 = Ret data
        /\ match_site_pages b n emb 10 = Ret (Some docs)
        /\ web_entries docs = Ret es
        /\ Permutation rs
             (map pdf_entry
                (first_seen ∅
                   (pdf_stage_rows b (S (length (calls p1))) q data))
              ++ es))
  /\ sort_desc similarity_leb
       [entry pdf "pdf" (Some (9 # 10)); entry pdf "pdf-keyword" None;
        entry web "web" (Some (95 # 100))]
     = [entry web "web" (Some (95 # 100)); entry pdf "pdf" (Some (9 # 10));
        entry pdf "pdf-keyword" None].
Proof.
  intros H. apply retrieve_json_inv, retrieve_results_inv in H.
  destruct H as (emb & p1 & data & n & docs & es & He & Hd & Hw & Hes & Hrs).
  assert (Hsorted :
    StronglySorted (fun x y => (similarity_key y <= similarity_key x)%Q) rs).
  { rewrite Hrs.
    eapply StronglySorted_weaken;
      [| apply sort_desc_sorted;
         [apply similarity_leb_total | apply similarity_leb_trans]].
    intros x y Hxy. apply Qle_bool_iff. exact Hxy. }
  assert (Hnone : forall x, res_similarity x = None -> similarity_key x = 0%Q).
  { intros x Hx. unfold similarity_key. rewrite Hx. reflexivity. }
  split; [exact Hsorted |]. split; [exact Hnone |].
  split.
  { intros x s Hx. unfold similarity_key. rewrite Hx.
    exact (or_zero_spec (Some s)). }
  split.
  { intros before x after y -> Hx Hy Hpos.
    apply StronglySorted_tail in Hsorted. rename Hsorted into Hs.
    apply StronglySorted_inv in Hs. destruct Hs as [_ Hall].
    rewrite List.Forall_forall in Hall. specialize (Hall y Hy).
    rewrite (Hnone x Hx) in Hall. exact (Qlt_not_le _ _ Hpos Hall). }
  split; [| vm_compute; reflexivity].
  exists emb, p1, data, n, docs, es.
  repeat (split; [assumption |]).
  rewrite Hrs. apply sort_desc_perm.
Qed.

Lemma web_entries_types (docs : list web_doc) (es : list result) :
  web_entries docs = Ret es ->
  Forall (fun e => res_type e = web) es /\ length es = length docs.
Proof.
  intros H. apply web_entries_rows in H.
  induction H as [|d e docs es Hde _ [IH1 IH2]]; [split; [constructor | auto] |].
  split; [constructor; [exact (web_entry_type _ _ Hde) | exact IH1] |].
  simpl. rewrite IH2. reflexivity.
Qed.

(** C5 (amended).  Among the entries made of PDF rows every identifier
    occurs at most once: a row whose identifier has been seen, in the vector
    stage or in an earlier keyword search, is skipped.  The entries made of
    web rows are added without any check, one for every row the web store
    answered, whatever the identifiers of the PDF rows and of the other web
    rows. *)
Theorem pdf_ids_unique (b : backends) (client : handle) (q : string)
  (p p' : process) (rs : list result) :
  retrieve_relevant_content_unified b client q p = (Ret (JsonText rs), p') ->
  exists hybrid docs es,
    gather b client q p = (Ret (hybrid, Some docs), p')
    /\ web_entries docs = Ret es
    /\ List.NoDup (map doc_id hybrid)
    /\ Permutation rs (map pdf_entry hybrid ++ es)
    /\ Forall (fun e => res_type e = pdf) (map pdf_entry hybrid)
    /\ Forall (fun e => res_type e = web) es
    /\ length es = length docs.
Proof.
  intros H. apply retrieve_json_inv, retrieve_results_gather in H.
  destruct H as (hybrid & docs & es & Hg & Hes & ->).
  exists hybrid, docs, es.
  split; [exact Hg |]. split; [exact Hes |].
  split.
  { apply gather_inv in Hg. destruct Hg as (? & ? & ? & ? & _ & _ & _ & ->).
    apply first_seen_nodup. }
  split; [apply sort_desc_perm |].
  split; [apply Forall_map, Forall_true; reflexivity |].
  apply web_entries_types. exact Hes.
Qed.

(** C10.  Entries of equal similarity (a missing similarity counting as 0)
    stay in the order in which they were merged: the entries of the PDF
    rows, which are the first row of every identifier in the order of
    arrival (vector search, or else the keyword searches in the order they
    were issued), then the entries of the web rows in the order of the
    rows. *)
Theorem ties_keep_merge_order (b : backends) (client : handle) (q : string)
  (p p' : process) (rs : list result) :
  retrieve_relevant_content_unified b client q p = (Ret (JsonText rs), p') ->
  exists emb p1 data n docs es,
    get_embedding b q client p = (Ret emb, p1)
    /\ match_pdf_documents b (length (calls p1)) emb 0 10 = Ret data
    /\ match_site_pages b n emb 10 = Ret (Some docs)
    /\ Forall2 (fun d e => web_entry d = Ret e) docs es
    /\ let rows := pdf_stage_rows b (S (length (calls p1))) q data in
       let hybrid := first_seen ∅ rows in
       sublist hybrid rows
       /\ forall k : Q,
            List.filter (has_similarity k) rs
            = (List.filter (has_similarity k) (map pdf_entry hybrid)
               ++ List.filter (has_similarity k) es)%list.
Proof.
  intros H. apply retrieve_json_inv, retrieve_results_inv in H.
  destruct H as (emb & p1 & data & n & docs & es & He & Hd & Hw & Hes & ->).
  exists emb, p1, data, n, docs, es.
  repeat (split; [assumption |]).
  split; [apply web_entries_rows; exact Hes |].
  split; [apply first_seen_sublist |].
  intros k. rewrite sort_desc_stable by apply has_similarity_leb.
  apply List.filter_app.
Qed.

(** * Further properties *)

(** ** More on strings *)

Lemma append_cons (c : ascii) (s t : string) :
  String c s +:+ t = String c (s +:+ t).
Proof. reflexivity. Qed.

Lemma string_app_assoc (a b c : string) : (a +:+ b) +:+ c = a +:+ (b +:+ c).
Proof.
  induction a as [|x a IH]; [reflexivity |].
  rewrite !append_cons. f_equal. exact IH.
Qed.

Lemma string_app_nil_r (a : string) : a +:+ "" = a.
Proof.
  induction a as [|x a IH]; [reflexivity |].
  rewrite !append_cons. f_equal. exact IH.
Qed.

Lemma substring_of_trans (a b c : string) :
  substring_of a b -> substring_of b c -> substring_of a c.
Proof.
  intros (p1 & q1 & ->) (p2 & q2 & ->).
  exists (p2 +:+ p1), (q1 +:+ q2).
  rewrite !string_app_assoc. reflexivity.
Qed.

Lemma contains_trans (a b c : string) :
  contains a b = true -> contains b c = true -> contains a c = true.
Proof. rewrite !contains_spec. apply substring_of_trans. Qed.

Lemma starts_with_app (p s t : string) :
  starts_with p s = true -> starts_with p (s +:+ t) = true.
Proof.
  rewrite !starts_with_spec. intros (post & ->).
  exists (post +:+ t). apply string_app_assoc.
Qed.

(** [before_first sep s] is the part of [s] in front of the first
    occurrence of [sep]: what follows it is empty or begins with [sep], and
    [sep] does not occur inside it. *)
Lemma not_in_empty (sep : string) : sep <> "" -> ~ substring_of sep "".
Proof.
  intros Hsep (p & q & H). destruct p; [| discriminate].
  destruct sep; [congruence | discriminate].
Qed.

Lemma before_first_spec (sep s : string) :
  sep <> "" ->
  (exists rest,
      s = before_first sep s +:+ rest
      /\ (rest = "" \/ starts_with sep rest = true))
  /\ ~ substring_of sep (before_first sep s).
Proof.
  intros Hsep. induction s as [|c s IH].
  - assert (Hb : before_first sep "" = "")
      by (cbn [before_first]; destruct (starts_with sep ""); reflexivity).
    rewrite Hb. split; [| apply not_in_empty; exact Hsep].
    exists "". split; [reflexivity | left; reflexivity].
  - destruct IH as [(rest & Hs & Hrest) Hnot].
    cbn [before_first]. destruct (starts_with sep (String c s)) eqn:E.
    + split; [| apply not_in_empty; exact Hsep].
      exists (String c s). split; [reflexivity | right; exact E].
    + split.
      * exists rest. split; [| exact Hrest].
        rewrite append_cons, <- Hs. reflexivity.
      * intros (p & q & H). destruct p as [|x p].
        -- assert (Hst :
             starts_with sep (String c (before_first sep s)) = true)
             by (apply starts_with_spec; exists q; exact H).
           apply (starts_with_app _ _ rest) in Hst.
           rewrite append_cons, <- Hs in Hst. congruence.
        -- rewrite append_cons in H. injection H as _ H. apply Hnot.
           exists p, q. exact H.
Qed.

Lemma ascii_compare_refl (a : ascii) : Ascii.compare a a = Eq.
Proof. unfold Ascii.compare. apply N.compare_refl. Qed.

Lemma string_compare_refl (s : string) : String.compare s s = Eq.
Proof.
  induction s as [|c s IH]; [reflexivity |].
  simpl. rewrite ascii_compare_refl. exact IH.
Qed.

Lemma string_leb_trans (a b c : string) :
  String.leb a b = true -> String.leb b c = true -> String.leb a c = true.
Proof.
  unfold String.leb. revert b c.
  induction a as [|x a IH]; intros [|y b] [|z c]; simpl; try congruence;
    try reflexivity.
  unfold Ascii.compare.
  destruct (N.compare_spec (N_of_ascii x) (N_of_ascii y)) as [Hxy | Hxy | Hxy];
    destruct (N.compare_spec (N_of_ascii y) (N_of_ascii z))
      as [Hyz | Hyz | Hyz];
    try congruence;
    destruct (N.compare_spec (N_of_ascii x) (N_of_ascii z))
      as [Hxz | Hxz | Hxz];
    try reflexivity; try lia; try congruence.
  apply IH.
Qed.

(** ** [list_documentation_pages] *)

Lemma row_urls_present (rows : list url_row) :
  Forall (fun r => exists u, row_url r = Val u) rows ->
  exists us,
    row_urls rows = Ret (map Some us)
    /\ forall u, In u us <-> exists r, In r rows /\ row_url r = Val u.
Proof.
  induction 1 as [|r rows [u Hu] _ (us & Hus & Hin)].
  - exists []. split; [reflexivity |]. intros u. split; [intros [] |].
    intros (r & [] & _).
  - exists (u :: us). cbn [row_urls]. rewrite Hu, Hus. split; [reflexivity |].
    intros v. cbn [In]. rewrite Hin. split.
    + intros [<- | (r' & Hr' & Hv)]; [exists r; auto | exists r'; auto].
    + intros (r' & [<- | Hr'] & Hv); [left; congruence | right; eauto].
Qed.

Lemma row_urls_absent (rows : list url_row) (r : url_row) :
  In r rows -> row_url r = Absent -> is_raise (row_urls rows) = true.
Proof.
  induction rows as [|r0 rows IH]; [intros [] |].
  intros [-> | Hin] Hr; cbn [row_urls].
  - rewrite Hr. reflexivity.
  - destruct (dict_index "url" (row_url r0)); [| reflexivity]. simpl.
    specialize (IH Hin Hr). destruct (row_urls rows); [discriminate |].
    reflexivity.
Qed.

Lemma row_urls_values (rows : list url_row) (vs : list (option string)) :
  row_urls rows = Ret vs ->
  forall r, In r rows -> In (dict_get (row_url r) None) vs.
Proof.
  revert vs. induction rows as [|r0 rows IH]; intros vs H r; [intros [] |].
  cbn [row_urls] in H.
  apply obind_ret_inv in H. destruct H as (u & Hu & H).
  apply obind_ret_inv in H. destruct H as (us & Hus & H).
  injection H as <-. intros [<- | Hin].
  - left. destruct (row_url r0); simpl in *; congruence.
  - right. apply (IH _ Hus). exact Hin.
Qed.

Lemma all_strings_some (ss : list string) : all_strings (map Some ss) = Some ss.
Proof.
  induction ss as [|s ss IH]; [reflexivity |]. simpl. rewrite IH. reflexivity.
Qed.

Lemma all_strings_none (vs : list (option string)) :
  In None vs -> all_strings vs = None.
Proof.
  induction vs as [|[s|] vs IH]; [intros [] | | reflexivity].
  intros [H | H]; [discriminate |]. simpl. rewrite (IH H). reflexivity.
Qed.

Lemma all_some_list (vs : list (option string)) :
  (forall v, In v vs -> v <> None) -> exists ss, vs = map Some ss.
Proof.
  induction vs as [|[s|] vs IH]; intros H.
  - exists []. reflexivity.
  - destruct IH as [ss ->]; [intros v Hv; apply H; right; exact Hv |].
    exists (s :: ss). reflexivity.
  - exfalso. apply (H None); [left |]; reflexivity.
Qed.

Lemma sorted_strings_strict (ss : list string) :
  List.NoDup ss ->
  StronglySorted (fun a b => String.ltb a b = true) (sorted_strings ss).
Proof.
  intros Hnd.
  assert (Hnd' : List.NoDup (sorted_strings ss))
    by (eapply Permutation_NoDup; [symmetry; apply sort_desc_perm | exact Hnd]).
  assert (Hs : StronglySorted (fun a b => String.leb a b = true)
                 (sorted_strings ss)).
  { apply (sort_desc_sorted (fun y x => String.leb x y)).
    - intros a b. destruct (String.leb_total a b); auto.
    - intros a b c Hab Hbc. exact (string_leb_trans _ _ _ Hbc Hab). }
  induction Hs as [|a l Hs IH Ha]; [constructor |].
  inversion Hnd' as [|? ? Hni Hl]; subst.
  constructor; [exact (IH Hl) |].
  rewrite List.Forall_forall in *. intros b Hb. specialize (Ha b Hb).
  unfold String.leb in Ha. unfold String.ltb.
  destruct (String.compare a b) eqn:E; [| reflexivity | discriminate].
  apply String.compare_eq_iff in E. subst. contradiction.
Qed.

(** The sorted set of strings: the rendering of every shape of the set. *)
Lemma sorted_set_strings (us0 : list string) :
  exists ss,
    sorted_set (map Some us0) = Ret (map Some (sorted_strings ss))
    /\ List.NoDup ss /\ forall u, In u ss <-> In u us0.
Proof.
  unfold sorted_set.
  set (distinct := list_to_set (map Some us0) : gset (option string)).
  assert (Hel : forall v, In v (elements distinct) <-> In v (map Some us0)).
  { intros v. rewrite <- !list_elem_of_In. unfold distinct.
    rewrite elem_of_elements, elem_of_list_to_set. reflexivity. }
  destruct (all_some_list (elements distinct)) as [ss Hss].
  { intros v Hv ->. apply Hel, in_map_iff in Hv.
    destruct Hv as (u & Hu & _). discriminate. }
  exists ss. split; [| split].
  - rewrite Hss. destruct ss as [|s [|s' ss]]; try reflexivity.
    change (Some s :: Some s' :: map Some ss) with (map Some (s :: s' :: ss)).
    cbn [map]. change (Some s :: Some s' :: map Some ss)
      with (map Some (s :: s' :: ss)).
    rewrite all_strings_some. reflexivity.
  - pose proof (NoDup_elements distinct) as Hnd. rewrite Hss in Hnd.
    apply NoDup_ListNoDup in Hnd.
    clear -Hnd. induction ss as [|s ss IH]; [constructor |].
    simpl in Hnd. inversion Hnd as [|? ? Hni Hl]; subst.
    constructor; [| exact (IH Hl)].
    intros Hin. apply Hni. apply in_map. exact Hin.
  - intros u. split.
    + intros Hu. apply (in_map Some) in Hu. rewrite <- Hss in Hu.
      apply Hel, in_map_iff in Hu. destruct Hu as (u' & [= ->] & Hu').
      exact Hu'.
    + intros Hu. apply (in_map Some) in Hu. apply Hel in Hu.
      rewrite Hss in Hu. apply in_map_iff in Hu.
      destruct Hu as (u' & [= ->] & Hu'). exact Hu'.
Qed.

(** X1.  When the query answers rows that all carry a URL, the tool returns
    these URLs without repetition and in strictly ascending order. *)
Theorem documentation_pages_sorted (rows : list url_row) :
  Forall (fun r => exists u, row_url r = Val u) rows ->
  exists us,
    list_documentation_pages (Ret (Some rows)) = map Some us
    /\ StronglySorted (fun a b => String.ltb a b = true) us
    /\ forall u, In u us <-> exists r, In r rows /\ row_url r = Val u.
Proof.
  intros Hrows. destruct (row_urls_present rows Hrows) as (us0 & Hus0 & Hin0).
  destruct (sorted_set_strings us0) as (ss & Hset & Hnd & Hin).
  exists (sorted_strings ss). split; [| split].
  - unfold list_documentation_pages. cbn [obind data_or_empty].
    destruct rows as [|r rows].
    + destruct ss as [|s ss]; [reflexivity |].
      exfalso. assert (Hs : In s us0) by (apply Hin; left; reflexivity).
      apply Hin0 in Hs. destruct Hs as (r & [] & _).
    + rewrite Hus0. cbn [obind]. rewrite Hset. reflexivity.
  - apply sorted_strings_strict. exact Hnd.
  - intros u. rewrite <- Hin0, <- Hin. split; intros Hu.
    + eapply Permutation_in; [apply sort_desc_perm | exact Hu].
    + eapply Permutation_in; [symmetry; apply sort_desc_perm | exact Hu].
Qed.

Lemma documentation_pages_sorted_witness :
  exists us,
    list_documentation_pages
      (Ret (Some [{| row_url := Val "https://medtechone-learning.com/usability" |};
                  {| row_url := Val "https://medtechone-learning.com/data" |};
                  {| row_url := Val "https://medtechone-learning.com/usability" |}]))
    = map Some us
    /\ StronglySorted (fun a b => String.ltb a b = true) us.
Proof.
  destruct (documentation_pages_sorted
              [{| row_url := Val "https://medtechone-learning.com/usability" |};
               {| row_url := Val "https://medtechone-learning.com/data" |};
               {| row_url := Val "https://medtechone-learning.com/usability" |}])
    as (us & Hout & Hsorted & _).
  - repeat constructor; eexists; reflexivity.
  - exists us. split; assumption.
Defined.

Lemma elements_two (X : gset (option string)) (a b : option string) :
  a ∈ X -> b ∈ X -> a <> b ->
  exists v1 v2 vs, elements X = v1 :: v2 :: vs.
Proof.
  intros Ha Hb Hne.
  apply elem_of_elements, list_elem_of_In in Ha.
  apply elem_of_elements, list_elem_of_In in Hb.
  destruct (elements X) as [|v1 [|v2 vs]]; [destruct Ha | | eauto].
  destruct Ha as [<- | []], Hb as [<- | []]. congruence.
Qed.

(** X2.  The tool returns the empty list when the query raises, when it
    answers no rows, when a row has no "url" key, and when the URLs are
    [None] for some rows and strings for others. *)
Theorem documentation_pages_failures
  (answer : outcome (option (list url_row))) :
  is_raise answer = true
  \/ (exists data, answer = Ret data /\ data_or_empty data = [])
  \/ (exists rows r,
        answer = Ret (Some rows) /\ In r rows /\ row_url r = Absent)
  \/ (exists rows r1 r2 u,
        answer = Ret (Some rows) /\ In r1 rows /\ row_url r1 = Null
        /\ In r2 rows /\ row_url r2 = Val u) ->
  list_documentation_pages answer = [].
Proof.
  unfold list_documentation_pages.
  intros [H | [(data & -> & Hd) | [(rows & r & -> & Hin & Hr)
                                  | (rows & r1 & r2 & u & -> & H1 & Hn & H2 & Hv)]]].
  - destruct answer; [discriminate | reflexivity].
  - cbn [obind]. rewrite Hd. reflexivity.
  - cbn [obind data_or_empty]. pose proof (row_urls_absent _ _ Hin Hr) as Hraise.
    destruct rows; [reflexivity |].
    destruct (row_urls (u :: rows)); [discriminate | reflexivity].
  - cbn [obind data_or_empty]. destruct rows as [|r0 rows]; [reflexivity |].
    destruct (row_urls (r0 :: rows)) as [vs | e] eqn:Hvs; [| reflexivity].
    cbn [obind]. unfold sorted_set.
    pose proof (row_urls_values _ _ Hvs _ H1) as Hnone.
    pose proof (row_urls_values _ _ Hvs _ H2) as Hsome.
    rewrite Hn in Hnone. rewrite Hv in Hsome. cbn [dict_get] in *.
    set (distinct := list_to_set vs : gset (option string)).
    assert (Hn' : None ∈ distinct)
      by (apply elem_of_list_to_set, list_elem_of_In; exact Hnone).
    assert (Hs' : Some u ∈ distinct)
      by (apply elem_of_list_to_set, list_elem_of_In; exact Hsome).
    destruct (elements_two distinct None (Some u) Hn' Hs')
      as (v1 & v2 & rest & Hel); [discriminate |].
    rewrite Hel, <- Hel, all_strings_none; [reflexivity |].
    apply list_elem_of_In, elem_of_elements. exact Hn'.
Qed.

Lemma documentation_pages_failures_witness :
  list_documentation_pages
    (Ret (Some [{| row_url := Val "https://medtechone-learning.com/data" |};
                {| row_url := Absent |}]))
  = [].
Proof.
  apply documentation_pages_failures. right. right. left.
  exists [{| row_url := Val "https://medtechone-learning.com/data" |};
          {| row_url := Absent |}], {| row_url := Absent |}.
  split; [reflexivity |]. split; [right; left; reflexivity | reflexivity].
Defined.

(** ** [get_page_content] *)

Lemma chunk_texts_present (rows : list page_chunk) :
  Forall (fun c => chunk_content c <> Absent) rows ->
  chunk_texts rows = Ret (map chunk_text_of rows).
Proof.
  induction 1 as [|c rows Hc _ IH]; [reflexivity |].
  cbn [chunk_texts map]. rewrite IH. unfold chunk_text_of.
  destruct (chunk_content c); [congruence | reflexivity | reflexivity].
Qed.

Lemma chunk_texts_absent (rows : list page_chunk) (c : page_chunk) :
  In c rows -> chunk_content c = Absent ->
  chunk_texts rows = Raise (KeyError "content").
Proof.
  induction rows as [|c0 rows IH]; [intros [] |].
  intros [-> | Hin] Hc; cbn [chunk_texts].
  - rewrite Hc. reflexivity.
  - destruct (chunk_content c0) eqn:E; cbn [dict_index obind];
      [reflexivity | |]; rewrite (IH Hin Hc); reflexivity.
Qed.

Lemma join_paragraphs (head : string) (texts : list string) :
  join (nl +:+ nl) (head :: texts) = head +:+ paragraphs texts.
Proof.
  revert head. induction texts as [|t texts IH]; intros head.
  - simpl. rewrite string_app_nil_r. reflexivity.
  - change (join (nl +:+ nl) (head :: t :: texts))
      with (head +:+ (nl +:+ nl) +:+ join (nl +:+ nl) (t :: texts)).
    rewrite IH. cbn [paragraphs]. rewrite !string_app_assoc. reflexivity.
Qed.

(** X3.  For a page whose first row has a title and whose rows all have a
    "content" key, the tool returns a heading made of the title of the
    first row up to its first " - ", followed by the text of every row in
    order, each after a blank line (a row whose content is null gives an
    empty paragraph).  The part of the title put in the heading, after
    "# ", never contains " - ". *)
Theorem page_content_layout (first : page_chunk) (rest : list page_chunk)
  (full_title url : string) :
  chunk_title first = Val full_title ->
  Forall (fun c => chunk_content c <> Absent) (first :: rest) ->
  let page_title := before_first " - " full_title in
  get_page_content (Ret (Some (first :: rest))) url
  = "# " +:+ page_title +:+ nl
    +:+ paragraphs (map chunk_text_of (first :: rest))
  /\ (exists tail,
        full_title = page_title +:+ tail
        /\ (tail = "" \/ starts_with " - " tail = true))
  /\ ~ substring_of " - " page_title.
Proof.
  intros Ht Hrows page_title. split.
  - unfold get_page_content. cbn [data_or_empty]. rewrite Ht.
    cbn [dict_index]. rewrite (chunk_texts_present _ Hrows).
    fold page_title. rewrite join_paragraphs, !string_app_assoc. reflexivity.
  - apply before_first_spec. discriminate.
Qed.

Lemma page_content_layout_witness :
  get_page_content
    (Ret (Some [{| chunk_title := Val "Usability - MedTechONE";
                   chunk_content := Val "Plan the study." |};
                {| chunk_title := Absent; chunk_content := Null |};
                {| chunk_title := Absent;
                   chunk_content := Val "Recruit users." |}]))
    "https://medtechone-learning.com/usability"
  = "# Usability" +:+ nl +:+ nl +:+ nl +:+ "Plan the study."
    +:+ nl +:+ nl +:+ nl +:+ nl +:+ "Recruit users.".
Proof.
  destruct (page_content_layout
              {| chunk_title := Val "Usability - MedTechONE";
                 chunk_content := Val "Plan the study." |}
              [{| chunk_title := Absent; chunk_content := Null |};
               {| chunk_title := Absent;
                  chunk_content := Val "Recruit users." |}]
              "Usability - MedTechONE"
              "https://medtechone-learning.com/usability")
    as (Hout & _).
  - reflexivity.
  - repeat constructor; discriminate.
  - rewrite Hout. vm_compute. reflexivity.
Defined.

(** X4.  The tool answers with a text in every case of failure: "No content
    found for URL: ..." when the query answers no rows; the error text with
    the message of the exception when the query raises; the error text
    naming the key "title" when the first row has no such key; the error
    text naming the key "content" when the title of the first row is a
    string and some row has no such key; the error text of the missing
    attribute [split] when the title of the first row is null.  The title
    is read before any content, so that the last three cases hold whatever
    the other rows hold. *)
Theorem page_content_failures (url : string) :
  (forall data, data_or_empty data = [] ->
     get_page_content (Ret data) url = "No content found for URL: " +:+ url)
  /\ (forall e,
        get_page_content (Raise e) url
        = "Error retrieving page content: " +:+ exn_str e)
  /\ (forall first rest,
        chunk_title first = Absent ->
        get_page_content (Ret (Some (first :: rest))) url
        = "Error retrieving page content: 'title'")
  /\ (forall first rest full_title c,
        chunk_title first = Val full_title ->
        In c (first :: rest) -> chunk_content c = Absent ->
        get_page_content (Ret (Some (first :: rest))) url
        = "Error retrieving page content: 'content'")
  /\ (forall first rest,
        chunk_title first = Null ->
        get_page_content (Ret (Some (first :: rest))) url
        = "Error retrieving page content: "
          +:+ "'NoneType' object has no attribute 'split'").
Proof.
  unfold get_page_content. repeat split.
  - intros data ->. reflexivity.
  - intros first rest Ht. cbn [data_or_empty]. rewrite Ht. reflexivity.
  - intros first rest full_title c Ht Hin Hc. cbn [data_or_empty].
    rewrite Ht. cbn [dict_index].
    rewrite (chunk_texts_absent _ _ Hin Hc). reflexivity.
  - intros first rest Ht. cbn [data_or_empty]. rewrite Ht. reflexivity.
Qed.

Lemma page_content_failures_witness :
  get_page_content
    (Ret (Some [{| chunk_title := Val "Usability - MedTechONE";
                   chunk_content := Val "Plan the study." |};
                {| chunk_title := Val "Usability - MedTechONE";
                   chunk_content := Absent |}]))
    "https://medtechone-learning.com/usability"
  = "Error retrieving page content: 'content'".
Proof.
  destruct (page_content_failures "https://medtechone-learning.com/usability")
    as (_ & _ & _ & H & _).
  apply (H _ _ "Usability - MedTechONE"
           {| chunk_title := Val "Usability - MedTechONE";
              chunk_content := Absent |});
    [reflexivity | right; left; reflexivity | reflexivity].
Defined.

(** ** More on [list_airtable_resources] *)

Lemma rank_as_filter (filter_value : option string)
  (records : list airtable_record) :
  rank filter_value records
  = sort_desc score_leb
      (map (fun r => format_resource (fields r))
         (List.filter (fun r => passes_filter filter_value (fields r))
            records)).
Proof. unfold rank. rewrite formatted_resources_filter. reflexivity. Qed.

Lemma filter_all {X} (f : X -> bool) (l : list X) :
  (forall x, In x l -> f x = true) -> List.filter f l = l.
Proof.
  induction l as [|x l IH]; intros H; [reflexivity |].
  simpl. rewrite (H x) by (left; reflexivity).
  rewrite IH; [reflexivity |]. intros y Hy. apply H. right. exact Hy.
Qed.


(** X5.  Without a filter value, and likewise with the empty string, no
    record is left out: the ranked list is the whole catalogue, formatted
    and rearranged in descending order of score. *)
Theorem no_filter_keeps_all (records : list airtable_record) :
  rank (Some "") records = rank None records
  /\ Permutation (rank None records)
       (map (fun r => format_resource (fields r)) records)
  /\ length (rank None records) = length records
  /\ StronglySorted
       (fun x y => (relevance_score (ecr y) <= relevance_score (ecr x))%Z)
       (rank None records).
Proof.
  rewrite !rank_as_filter.
  rewrite !filter_all by reflexivity.
  split; [reflexivity |]. split; [apply sort_desc_perm |]. split.
  - rewrite (Permutation_length (sort_desc_perm _ _)). apply length_map.
  - eapply StronglySorted_weaken;
      [| apply sort_desc_sorted;
         [apply score_leb_total | apply score_leb_trans]].
    intros x y H. apply Z.leb_le. exact H.
Qed.

Lemma passes_filter_lower (fv : string) (f : airtable_fields) :
  passes_filter (Some (lower fv)) f = passes_filter (Some fv) f.
Proof.
  destruct fv as [|a fv].
  - rewrite (proj2 (lower_empty "") eq_refl). reflexivity.
  - destruct (lower (String a fv)) as [|a' fv'] eqn:E.
    + apply (proj1 (lower_empty _)) in E. discriminate.
    + cbn [passes_filter]. rewrite <- E, lower_idempotent. reflexivity.
Qed.

(** X6.  The case of the letters of the filter value does not matter: a
    value and its lowercase form select and rank the same records and give
    the same text. *)
Theorem filter_value_case_insensitive (fv : string)
  (table_all : outcome (list airtable_record))
  (filter_field : option string) :
  (forall records, rank (Some (lower fv)) records = rank (Some fv) records)
  /\ list_airtable_resources table_all filter_field (Some (lower fv))
     = list_airtable_resources table_all filter_field (Some fv).
Proof.
  assert (H : forall records,
             rank (Some (lower fv)) records = rank (Some fv) records).
  { intros records. rewrite !rank_as_filter. do 2 f_equal.
    apply List.filter_ext. intros r. apply passes_filter_lower. }
  split; [exact H |].
  unfold list_airtable_resources. destruct table_all as [[|r records] | e];
    try reflexivity.
  rewrite H. reflexivity.
Qed.

(** X7.  Extending the filter value never brings in a record: when the
    lowercased value [fv1] occurs in the lowercased value [fv2], every
    resource listed for [fv2] is listed for [fv1]. *)
Theorem longer_filter_selects_less (fv1 fv2 : string)
  (records : list airtable_record) :
  substring_of (lower fv1) (lower fv2) ->
  forall x, In x (rank (Some fv2) records) -> In x (rank (Some fv1) records).
Proof.
  intros Hsub x. rewrite !rank_as_filter. intros Hx.
  apply (Permutation_in _ (sort_desc_perm _ _)) in Hx.
  apply (Permutation_in _ (Permutation_sym (sort_desc_perm _ _))).
  apply in_map_iff in Hx. destruct Hx as (r & <- & Hr).
  apply in_map_iff. exists r. split; [reflexivity |].
  apply filter_In in Hr. destruct Hr as [Hin Hp].
  apply filter_In. split; [exact Hin |].
  apply passes_filter_matches in Hp. apply passes_filter_matches.
  unfold matches in *.
  destruct Hp as [H | [H | [H | H]]];
    [left | right; left | right; right; left | right; right; right];
    exact (substring_of_trans _ _ _ Hsub H).
Qed.


(** ** More on [DocumentCache] *)

Lemma get_cache_other (now : float) (k k' : string) (c : DocumentCache.t) :
  k <> k' ->
  DocumentCache.cache (snd (DocumentCache.get now k c)) !! k'
  = DocumentCache.cache c !! k'
  /\ DocumentCache.ttl (snd (DocumentCache.get now k c)) = DocumentCache.ttl c.
Proof.
  intros Hne. unfold DocumentCache.get.
  destruct (DocumentCache.cache c !! k) as [[ts v]|]; [| auto].
  destruct (DocumentCache.lt (PrimFloat.sub now ts) (DocumentCache.ttl c)); [auto |].
  cbn. split; [apply lookup_delete_ne; exact Hne | reflexivity].
Qed.

(** X9.  Reading or writing one key leaves every other key alone: a [get]
    of [k'] answers the same after a [get] of [k] (even one that finds [k]
    expired and deletes it) and after a [set] of [k]. *)
Theorem cache_keys_independent (now t : float) (k k' value : string)
  (c : DocumentCache.t) :
  k <> k' ->
  fst (DocumentCache.get t k' (snd (DocumentCache.get now k c)))
  = fst (DocumentCache.get t k' c)
  /\ fst (DocumentCache.get t k' (DocumentCache.set now k value c))
     = fst (DocumentCache.get t k' c).
Proof.
  intros Hne. split.
  - destruct (get_cache_other now k k' c Hne) as [Hc Ht].
    unfold DocumentCache.get at 1 3. rewrite Hc, Ht.
    destruct (DocumentCache.cache c !! k') as [[ts v]|]; [| reflexivity].
    destruct (DocumentCache.lt (PrimFloat.sub t ts) (DocumentCache.ttl c)); reflexivity.
  - unfold DocumentCache.get, DocumentCache.set.
    cbn [DocumentCache.cache DocumentCache.ttl].
    rewrite lookup_insert_ne by exact Hne.
    destruct (DocumentCache.cache c !! k') as [[ts v]|]; [| reflexivity].
    destruct (DocumentCache.lt (PrimFloat.sub t ts) (DocumentCache.ttl c)); reflexivity.
Qed.

Lemma cache_keys_independent_witness :
  fst (DocumentCache.get 10 "data"
         (snd (DocumentCache.get 4000 "usability"
                 (DocumentCache.set 0 "usability" "u"
                    (DocumentCache.set 5 "data" "d"
                       (DocumentCache.init None))))))
  = fst (DocumentCache.get 10 "data"
           (DocumentCache.set 0 "usability" "u"
              (DocumentCache.set 5 "data" "d" (DocumentCache.init None)))).
Proof.
  apply (cache_keys_independent 4000 10 "usability" "data" "u").
  discriminate.
Defined.

(** X10.  Asking twice at the same instant changes nothing: the second
    [get] returns what the first returned and leaves the cache as the first
    left it. *)
Theorem cache_get_twice (now : float) (key : string) (c : DocumentCache.t) :
  DocumentCache.get now key (snd (DocumentCache.get now key c))
  = DocumentCache.get now key c.
Proof.
  unfold DocumentCache.get at 2 3.
  destruct (DocumentCache.cache c !! key) as [[ts v]|] eqn:E.
  - destruct (DocumentCache.lt (PrimFloat.sub now ts) (DocumentCache.ttl c)) eqn:L.
    + cbn [snd]. unfold DocumentCache.get. rewrite E, L. reflexivity.
    + cbn [snd]. unfold DocumentCache.get. cbn [DocumentCache.cache].
      rewrite lookup_delete_eq. reflexivity.
  - cbn [snd]. unfold DocumentCache.get. rewrite E. reflexivity.
Qed.

(** ** More on the search *)







(** The PDF vector search is the first call to a store, with the embedding
    that [get_embedding] returned. *)
Lemma gather_first_store_call (b : backends) (client : handle) (q : string)
  (p p1 : process) (emb : list Q) :
  get_embedding b q client p = (Ret emb, p1) ->
  exists flag rest,
    calls (snd (gather b client q p))
    = (calls p1
       ++ {| call_request := MatchPdfDocuments emb 0 10; call_failed := flag |}
          :: rest)%list.
Proof.
  intros He. unfold gather. unfold bind at 1. rewrite He.
  unfold bind at 1. rewrite outbound_run.
  destruct (match_pdf_documents b (length (calls p1)) emb 0 10)
    as [data | e]; cbn [is_raise].
  - match goal with
    | |- context [bind ?m ?k (logged p1 ?c)] =>
        assert (Hd : disciplined (bind m k))
    end.
    { apply disciplined_bind.
      - destruct (fst _); [apply disciplined_keyword_search
                          | apply disciplined_ret].
      - intros acc. apply disciplined_bind; [apply disciplined_outbound |].
        intros wr. apply disciplined_ret. }
    destruct (Hd (logged p1 (answered (MatchPdfDocuments emb 0 10))))
      as (l & Hl & _).
    exists false, l. unfold answered in *. rewrite Hl. unfold logged.
    cbn [calls]. rewrite <- app_assoc. reflexivity.
  - exists true, []. reflexivity.
Qed.

(** X12.  A failure of the embedding service does not end the search: when
    the text is not in the embedding store and the service raises, the PDF
    store is searched with the vector of 1536 zeros. *)
Theorem embedding_failure_searches_with_zeros (b : backends)
  (client : handle) (q : string) (p : process) :
  LRU.find (q, client) (embedding_cache p) = None ->
  is_raise (embeddings_create b (length (calls p)) client q 1536) = true ->
  length zero_vector = 1536%nat
  /\ exists flag rest,
       issued p (snd (retrieve_relevant_content_unified b client q p))
       = {| call_request := EmbeddingsCreate q 1536; call_failed := true |}
         :: {| call_request := MatchPdfDocuments zero_vector 0 10;
               call_failed := flag |}
         :: rest.
Proof.
  intros Hmiss Hraise. split; [apply zero_vector_length |].
  pose proof (get_embedding_miss b q client p Hmiss) as He.
  rewrite Hraise in He.
  destruct (embeddings_create b (length (calls p)) client q 1536)
    as [[data | e] |]; [discriminate | | discriminate].
  cbn [embedding_result embedding_of] in He.
  destruct (gather_first_store_call _ _ _ _ _ _ He) as (flag & rest & Hlog).
  exists flag, rest. rewrite retrieve_state.
  apply issued_app. rewrite Hlog. cbn [calls].
  rewrite <- app_assoc. reflexivity.
Qed.

Lemma web_entries_missing_key (docs : list web_doc) (d : web_doc) :
  In d docs ->
  web_title d = Absent \/ web_content d = Absent \/ web_url d = Absent
  \/ web_similarity d = Absent ->
  is_raise (web_entries docs) = true.
Proof.
  intros Hin Hd. induction docs as [|d0 docs IH]; [destruct Hin |].
  cbn [web_entries]. destruct Hin as [-> | Hin].
  - unfold web_entry.
    destruct (web_title d); [reflexivity | |];
      (destruct (web_content d); [reflexivity | |]);
      (destruct (web_url d); [reflexivity | |]);
      (destruct (web_similarity d); [reflexivity | |]);
      exfalso; destruct Hd as [H | [H | [H | H]]]; discriminate.
  - destruct (web_entry d0); [| reflexivity]. cbn [obind].
    specialize (IH Hin). destruct (web_entries docs); [discriminate |].
    reflexivity.
Qed.

(** X13.  One web row that lacks "title", "content", "url" or "similarity",
    or a web answer without data, makes the tool return the empty text,
    also when the PDF store has found chunks. *)
Theorem malformed_web_answer_empties_result (b : backends) (client : handle)
  (q : string) (p p1 : process) (hybrid : list pdf_doc)
  (web_data : option (list web_doc)) :
  gather b client q p = (Ret (hybrid, web_data), p1) ->
  web_data = None
  \/ (exists docs d,
        web_data = Some docs /\ In d docs
        /\ (web_title d = Absent \/ web_content d = Absent
            \/ web_url d = Absent \/ web_similarity d = Absent)) ->
  retrieve_relevant_content_unified b client q p = (Ret EmptyText, p1).
Proof.
  intros Hg Hbad.
  unfold retrieve_relevant_content_unified, try_except, retrieve_results.
  unfold bind at 2. unfold bind at 1. rewrite Hg. cbn [fst snd].
  unfold combine, bind, lift.
  destruct Hbad as [-> | (docs & d & -> & Hin & Hd)]; [reflexivity |].
  cbn [iterate]. pose proof (web_entries_missing_key _ _ Hin Hd) as Hr.
  destruct (web_entries docs); [discriminate | reflexivity].
Qed.

Lemma calls_within_ret {A} (a : A) : calls_within 0 (ret a).
Proof. intros p. exists []. rewrite app_nil_r. split; [reflexivity | auto]. Qed.

Lemma calls_within_outbound {A} (rq : request) (answer : nat -> outcome A) :
  calls_within 1 (outbound rq answer).
Proof.
  intros p. rewrite outbound_run. eexists. split; [reflexivity |].
  simpl. lia.
Qed.

Lemma calls_within_bind {A B} (n m : nat) (c : M A) (k : A -> M B) :
  calls_within n c -> (forall a, calls_within m (k a)) ->
  calls_within (n + m) (bind c k).
Proof.
  intros Hc Hk p. unfold bind. destruct (Hc p) as (l1 & Hl1 & Hn).
  destruct (c p) as [[[a | e] |] p1]; cbn [snd] in *.
  - destruct (Hk a p1) as (l2 & Hl2 & Hm). exists (l1 ++ l2)%list.
    rewrite Hl2, Hl1, <- app_assoc, length_app. split; [reflexivity | lia].
  - exists l1. split; [exact Hl1 | lia].
  - exists l1. split; [exact Hl1 | lia].
Qed.

Lemma calls_within_le {A} (n m : nat) (c : M A) :
  (n <= m)%nat -> calls_within n c -> calls_within m c.
Proof.
  intros Hle Hc p. destruct (Hc p) as (l & Hl & Hn). exists l.
  split; [exact Hl | lia].
Qed.

Lemma calls_within_get_embedding (b : backends) (text : string)
  (client : handle) : calls_within 1 (get_embedding b text client).
Proof.
  intros p. unfold get_embedding, LRU.lookup_or_call.
  destruct (LRU.find (text, client) (embedding_cache p)) as [[[|]]|];
    cbn [awaited]; try rewrite get_embedding_body_run; cbn [snd calls].
  - exists []. rewrite app_nil_r. split; [reflexivity | auto].
  - eexists. split; [reflexivity | simpl; lia].
  - eexists. split; [reflexivity | simpl; lia].
Qed.

Lemma calls_within_keyword_search (b : backends) (kws : list string)
  (acc : list pdf_doc * gset (option Z)) :
  calls_within (2 * length kws) (keyword_search b kws acc).
Proof.
  revert acc. induction kws as [|kw kws IH]; intros acc;
    [apply calls_within_ret |].
  cbn [keyword_search].
  apply (calls_within_le (1 + (1 + 2 * length kws))); [simpl; lia |].
  apply calls_within_bind; [apply calls_within_outbound |]. intros rc.
  apply calls_within_bind; [apply calls_within_outbound |]. intros rt.
  apply IH.
Qed.

(** X14.  One search sends at most thirteen calls plus two per word of the
    lowercased query: one for the embedding, one PDF vector search, one web
    vector search, and the two substring searches of every keyword, the
    keywords being the query, its words and the four fixed terms. *)
Theorem search_call_budget (b : backends) (client : handle) (q : string)
  (p : process) :
  (length (issued p (snd (retrieve_relevant_content_unified b client q p)))
   <= 13 + 2 * length (split (lower q)))%nat.
Proof.
  assert (Hkw : length (keywords q) = (5 + length (split (lower q)))%nat)
    by (unfold keywords; cbn [app length]; rewrite length_app; simpl; lia).
  enough (length
            (issued p (snd (retrieve_relevant_content_unified b client q p)))
          <= 3 + 2 * length (keywords q))%nat by lia.
  clear Hkw.
  assert (H : calls_within (1 + (1 + (2 * length (keywords q) + (1 + 0))))
                (gather b client q)).
  { unfold gather.
    apply calls_within_bind; [apply calls_within_get_embedding |].
    intros emb.
    apply calls_within_bind; [apply calls_within_outbound |]. intros data.
    apply calls_within_bind.
    - destruct (fst _);
        [apply calls_within_keyword_search
        | apply (calls_within_le 0); [lia | apply calls_within_ret]].
    - intros acc.
      apply calls_within_bind; [apply calls_within_outbound |]. intros wr.
      apply calls_within_ret. }
  destruct (H p) as (l & Hl & Hn).
  rewrite retrieve_state, (issued_app _ _ _ Hl). lia.
Qed.

Lemma first_seen_length (seen : gset (option Z)) (docs : list pdf_doc) :
  (length (first_seen seen docs) <= length docs)%nat.
Proof.
  revert seen. induction docs as [|d docs IH]; intros seen; simpl; [lia |].
  destruct (decide (doc_id d ∈ seen)); simpl.
  - specialize (IH seen). lia.
  - specialize (IH ({[doc_id d]} ∪ seen)). lia.
Qed.

Lemma rows_of_length (b : backends) (n : nat) (col : column) (pat : string)
  (lim : nat) :
  honours_limits b ->
  (length (rows_of (ilike_pdf_documents b n col pat lim)) <= lim)%nat.
Proof.
  intros (_ & Hk & _).
  destruct (ilike_pdf_documents b n col pat lim) as [data | e] eqn:E;
    cbn [rows_of]; [exact (Hk _ _ _ _ _ E) | simpl; lia].
Qed.

Lemma keyword_rows_length (b : backends) (n : nat) (kws : list string) :
  honours_limits b ->
  (length (keyword_rows b n kws) <= 20 * length kws)%nat.
Proof.
  intros Hb. revert n. induction kws as [|kw kws IH]; intros n; [simpl; lia |].
  cbn [keyword_rows]. rewrite !length_app.
  pose proof (rows_of_length b n content_column ("%" +:+ kw +:+ "%") 10 Hb).
  pose proof (rows_of_length b (S n) title_column ("%" +:+ kw +:+ "%") 10 Hb).
  specialize (IH (S (S n))). cbn [length]. lia.
Qed.

(** X15.  When every store returns no more rows than the limit it is given,
    the tool returns at most 20 entries if the PDF vector search finds
    something, and at most 10 + 20 per keyword in any case. *)
Theorem result_size_bound (b : backends) (client : handle) (q : string)
  (p p' : process) (rs : list result) :
  honours_limits b ->
  retrieve_relevant_content_unified b client q p = (Ret (JsonText rs), p') ->
  (length rs <= 10 + 20 * length (keywords q))%nat
  /\ exists emb p1 data,
       get_embedding b q client p = (Ret emb, p1)
       /\ match_pdf_documents b (length (calls p1)) emb 0 10 = Ret data
       /\ (data_or_empty data <> [] -> (length rs <= 20)%nat).
Proof.
  intros Hb H. apply retrieve_json_inv, retrieve_results_inv in H.
  destruct H as (emb & p1 & data & n & docs & es & He & Hd & Hw & Hes & ->).
  pose proof Hb as (Hv & _ & Hweb).
  specialize (Hv _ _ _ _ _ Hd). specialize (Hweb _ _ _ _ Hw).
  cbn [data_or_empty] in Hweb.
  apply web_entries_types in Hes. destruct Hes as [_ Hlen].
  assert (Hkw : (5 <= length (keywords q))%nat)
    by (unfold keywords; cbn [app length]; rewrite length_app; simpl; lia).
  rewrite (Permutation_length (sort_desc_perm _ _)), length_app, length_map.
  pose proof (first_seen_length ∅
                (pdf_stage_rows b (S (length (calls p1))) q data)) as Hfs.
  unfold pdf_stage_rows in *. rewrite length_app in Hfs.
  pose proof (keyword_rows_length b (S (length (calls p1))) (keywords q) Hb)
    as Hk.
  split.
  - destruct (data_or_empty data); cbn [length] in *; lia.
  - exists emb, p1, data. split; [exact He |]. split; [exact Hd |].
    intros Hne. destruct (data_or_empty data); [congruence |].
    cbn [length] in *. lia.
Qed.





(** ** The metadata read off the text of a PDF *)

Ltac settle_table :=
  cbn [orb]; split;
  [ intros H;
    first [ discriminate H | split; [reflexivity | discriminate] ]
  | intros [H1 H2];
    first [ reflexivity | discriminate H1
          | exfalso; apply H2; reflexivity ] ].

Lemma any_in_spec (words : list string) (text : string) :
  any_in words text = true <-> exists w, In w words /\ substring_of w text.
Proof.
  unfold any_in. rewrite existsb_exists.
  split; intros (w & Hw & H); exists w; (split; [exact Hw |]);
    apply contains_spec; exact H.
Qed.

Lemma any_in_app (ws1 ws2 : list string) (text : string) :
  any_in (ws1 ++ ws2) text = any_in ws1 text || any_in ws2 text.
Proof. unfold any_in. apply existsb_app. Qed.

(** X17.  A document is put in the "clinical" stage exactly when its
    lowercased text mentions "clinical" or "trial" and none of the words of
    the three stages tested before.  So a text that mentions "pre-clinical"
    or "preclinical", although it contains "clinical", is never put in the
    "clinical" stage. *)
Theorem clinical_stage_comes_last (content : string) :
  let text := lower content in
  (doc_development_stage (content_metadata content) = "clinical" <->
   (substring_of "clinical" text \/ substring_of "trial" text)
   /\ ~ exists w,
          In w ["concept"; "ideation"; "initial"; "prototype"; "development";
                "design"; "pre-clinical"; "preclinical"]
          /\ substring_of w text)
  /\ (substring_of "pre-clinical" text \/ substring_of "preclinical" text ->
      doc_development_stage (content_metadata content) <> "clinical"
      /\ substring_of "clinical" text).
Proof.
  intros text.
  assert (Hearlier :
    any_in ["concept"; "ideation"; "initial"; "prototype"; "development";
            "design"; "pre-clinical"; "preclinical"] text
    = any_in ["concept"; "ideation"; "initial"] text
      || (any_in ["prototype"; "development"; "design"] text
          || any_in ["pre-clinical"; "preclinical"] text)).
  { rewrite <- !any_in_app. reflexivity. }
  assert (Hlast :
    any_in ["clinical"; "trial"] text = true <->
    substring_of "clinical" text \/ substring_of "trial" text).
  { rewrite any_in_spec. split.
    - intros (w & [<- | [<- | []]] & H); auto.
    - intros [H | H]; eexists; (split; [| exact H]); simpl; auto. }
  assert (Hiff :
    doc_development_stage (content_metadata content) = "clinical" <->
    (substring_of "clinical" text \/ substring_of "trial" text)
    /\ ~ exists w,
           In w ["concept"; "ideation"; "initial"; "prototype"; "development";
                 "design"; "pre-clinical"; "preclinical"]
           /\ substring_of w text).
  { rewrite <- any_in_spec, <- Hlast, Hearlier.
    unfold content_metadata. cbn [doc_development_stage]. fold text.
    destruct (any_in ["concept"; "ideation"; "initial"] text);
      destruct (any_in ["prototype"; "development"; "design"] text);
      destruct (any_in ["pre-clinical"; "preclinical"] text);
      destruct (any_in ["clinical"; "trial"] text);
      settle_table. }
  split; [exact Hiff |].
  intros Hpre. split.
  - intros Hc. apply Hiff in Hc. destruct Hc as [_ Hnone]. apply Hnone.
    destruct Hpre as [H | H]; eexists; (split; [| exact H]); simpl; auto 10.
  - destruct Hpre as [H | H]; refine (substring_of_trans _ _ _ _ H).
    + exists "pre-", "". reflexivity.
    + exists "pre", "". reflexivity.
Qed.

(** X18.  A document is given the device type "monitoring" exactly when its
    lowercased text mentions "monitor" and none of "diagnostic",
    "diagnosis", "therapeutic", "treatment": the word "monitoring" of the
    list adds nothing to "monitor". *)
Theorem monitoring_device_type (content : string) :
  let text := lower content in
  doc_device_type (content_metadata content) = "monitoring" <->
  substring_of "monitor" text
  /\ ~ exists w,
         In w ["diagnostic"; "diagnosis"; "therapeutic"; "treatment"]
         /\ substring_of w text.
Proof.
  intros text.
  assert (Hmon : any_in ["monitoring"; "monitor"] text = true <->
                 substring_of "monitor" text).
  { rewrite any_in_spec. split.
    - intros (w & [<- | [<- | []]] & H); [| exact H].
      refine (substring_of_trans _ _ _ _ H). exists "", "ing". reflexivity.
    - intros H. exists "monitor". split; [simpl; auto | exact H]. }
  assert (Hearlier :
    any_in ["diagnostic"; "diagnosis"; "therapeutic"; "treatment"] text
    = any_in ["diagnostic"; "diagnosis"] text
      || any_in ["therapeutic"; "treatment"] text).
  { rewrite <- any_in_app. reflexivity. }
  rewrite <- any_in_spec, <- Hmon, Hearlier.
  unfold content_metadata. cbn [doc_device_type]. fold text.
  destruct (any_in ["diagnostic"; "diagnosis"] text);
    destruct (any_in ["therapeutic"; "treatment"] text);
    destruct (any_in ["monitoring"; "monitor"] text);
    settle_table.
Qed.

(** ** The URL of a PDF file *)

Lemma find_url_found (url_mapping : list (string * list string))
  (filename : string) (a : option string) (u : string) :
  truthy a = false ->
  find_url url_mapping filename a = Some u -> u <> "" ->
  exists pre patterns post,
    url_mapping = (pre ++ (u, patterns) :: post)%list
    /\ pattern_matches patterns filename = true
    /\ Forall (fun e => fst e = "" \/ pattern_matches (snd e) filename = false)
         pre.
Proof.
  revert a. induction url_mapping as [|[url patterns] m IH]; intros a Ha Hf Hu.
  - simpl in Hf. subst a. destruct u; [congruence | discriminate].
  - cbn [find_url] in Hf.
    destruct (pattern_matches patterns filename) eqn:Hm.
    + destruct url as [|c url'].
      * cbn [truthy] in Hf. apply IH in Hf; [| reflexivity | exact Hu].
        destruct Hf as (pre & pats & post & -> & Hp & Hpre).
        exists (("", patterns) :: pre), pats, post.
        split; [reflexivity |]. split; [exact Hp |].
        constructor; [left; reflexivity | exact Hpre].
      * cbn [truthy] in Hf. injection Hf as <-.
        exists [], patterns, m. split; [reflexivity |].
        split; [exact Hm | constructor].
    + rewrite Ha in Hf. apply IH in Hf; [| exact Ha | exact Hu].
      destruct Hf as (pre & pats & post & -> & Hp & Hpre).
      exists ((url, patterns) :: pre), pats, post.
      split; [reflexivity |]. split; [exact Hp |].
      constructor; [right; exact Hm | exact Hpre].
Qed.

Lemma find_url_first (pre post : list (string * list string))
  (u : string) (patterns : list string) (filename : string)
  (a : option string) :
  truthy a = false -> u <> "" ->
  pattern_matches patterns filename = true ->
  Forall (fun e => fst e = "" \/ pattern_matches (snd e) filename = false)
    pre ->
  find_url (pre ++ (u, patterns) :: post) filename a = Some u.
Proof.
  intros Ha Hu Hm Hpre. revert a Ha.
  induction Hpre as [|[url pats] pre Hhd _ IH]; intros a Ha.
  - cbn [app find_url]. rewrite Hm.
    destruct u; [congruence | reflexivity].
  - cbn [app find_url]. cbn [fst snd] in Hhd.
    destruct (pattern_matches pats filename) eqn:E.
    + destruct Hhd as [-> | Hhd]; [| discriminate].
      cbn [truthy]. apply IH. reflexivity.
    + rewrite Ha. apply IH. exact Ha.
Qed.

Lemma find_url_falsy (url_mapping : list (string * list string))
  (filename : string) (a : option string) :
  truthy a = false ->
  truthy (find_url url_mapping filename a) = true ->
  exists u, find_url url_mapping filename a = Some u /\ u <> "".
Proof.
  intros _ Ht. destruct (find_url url_mapping filename a) as [[|c u]|];
    try discriminate.
  eexists. split; [reflexivity | discriminate].
Qed.

(** X19.  A file of the directory is stored under a URL exactly when its
    name ends in ".pdf" and some entry of the mapping with a non-empty URL
    has a pattern that occurs, case-insensitively, in the name; the URL is
    that of the first such entry in the order of the mapping. *)
Theorem first_matching_url (url_mapping : list (string * list string))
  (filename u : string) :
  associated_url_for url_mapping filename = Some u <->
  ends_with ".pdf" filename = true
  /\ u <> ""
  /\ exists pre patterns post,
       url_mapping = (pre ++ (u, patterns) :: post)%list
       /\ pattern_matches patterns filename = true
       /\ Forall
            (fun e => fst e = "" \/ pattern_matches (snd e) filename = false)
            pre.
Proof.
  unfold associated_url_for. split.
  - destruct (ends_with ".pdf" filename); [| discriminate].
    destruct (truthy (find_url url_mapping filename None)) eqn:Ht;
      [| discriminate].
    intros Hf. destruct (find_url_falsy _ _ None eq_refl Ht) as (u' & Hu' & Hne).
    rewrite Hu' in Hf. injection Hf as ->.
    split; [reflexivity |]. split; [exact Hne |].
    exact (find_url_found _ _ None u eq_refl Hu' Hne).
  - intros (-> & Hne & pre & patterns & post & -> & Hm & Hpre).
    rewrite (find_url_first pre post u patterns filename None eq_refl Hne Hm
               Hpre).
    destruct u; [congruence | reflexivity].
Qed.

Lemma pattern_matches_lower (patterns : list string) (filename : string) :
  pattern_matches (map lower patterns) filename
  = pattern_matches patterns filename
  /\ pattern_matches patterns (lower filename)
     = pattern_matches patterns filename.
Proof.
  unfold pattern_matches. split.
  - induction patterns as [|pt patterns IH]; [reflexivity |].
    cbn [map existsb]. rewrite lower_idempotent, IH. reflexivity.
  - rewrite lower_idempotent. reflexivity.
Qed.

(** X20.  The case of the letters of the patterns does not matter: writing
    every pattern of the mapping in lowercase changes the URL of no file.
    Neither does the case of the file name matter to the search through the
    mapping. *)
Theorem url_patterns_case_insensitive
  (url_mapping : list (string * list string)) (filename : string) :
  associated_url_for (map (fun e => (fst e, map lower (snd e))) url_mapping)
    filename
  = associated_url_for url_mapping filename
  /\ forall a,
       find_url url_mapping (lower filename) a
       = find_url url_mapping filename a.
Proof.
  split.
  - unfold associated_url_for.
    assert (H : forall a,
      find_url (map (fun e => (fst e, map lower (snd e))) url_mapping)
        filename a
      = find_url url_mapping filename a).
    { induction url_mapping as [|[url patterns] m IH]; intros a;
        [reflexivity |].
      cbn [map find_url fst snd].
      rewrite (proj1 (pattern_matches_lower patterns filename)).
      destruct (truthy _); [reflexivity | apply IH]. }
    rewrite H. reflexivity.
  - induction url_mapping as [|[url patterns] m IH]; intros a; [reflexivity |].
    cbn [find_url].
    rewrite (proj2 (pattern_matches_lower patterns filename)).
    destruct (truthy _); [reflexivity | apply IH].
Qed.

(** ** The retry loop of [run_agent_with_streaming] *)

(** X21.  The function makes at most three attempts and pauses one second
    after the first failure and two after the second, three seconds at
    most.  It returns exactly when an attempt completes after nothing but
    protocol errors; it raises the protocol error exactly when all three
    attempts end with one; any other exception is raised at once, with no
    further attempt. *)
Theorem retry_loop_outcomes (body : nat -> attempt_end) :
  let r := fst (run_agent_with_streaming body) in
  let slept := snd (run_agent_with_streaming body) in
  (slept = [] \/ slept = [1%nat] \/ slept = [1%nat; 2%nat])
  /\ (r = Returned <->
      exists i, (i < 3)%nat /\ body i = Completed
                /\ forall j, (j < i)%nat -> body j = ProtocolError)
  /\ (r = RaisedProtocolError <->
      forall j, (j < 3)%nat -> body j = ProtocolError)
  /\ (r = RaisedOtherError <->
      exists i, (i < 3)%nat /\ body i = OtherError
                /\ forall j, (j < i)%nat -> body j = ProtocolError)
  /\ (forall i, (i < 3)%nat -> body i <> ProtocolError ->
      (length slept <= i)%nat).
Proof.
  intros r slept. subst r slept. unfold run_agent_with_streaming.
  cbn [seq max_retries retry_loop Nat.ltb Nat.leb Nat.sub].
  assert (Hlt : forall j, (j < 3)%nat -> j = 0%nat \/ j = 1%nat \/ j = 2%nat)
    by (intros j Hj; lia).
  assert (H0 : forall j (P : nat -> Prop), (j < 0)%nat -> P j)
    by (intros j P Hj; lia).
  destruct (body 0%nat) eqn:E0; [| destruct (body 1%nat) eqn:E1;
                                   [| destruct (body 2%nat) eqn:E2 |] |];
    cbn [fst snd app Nat.mul];
    (split; [auto |]);
    repeat split;
    first
      [ discriminate
      | solve [intros _; reflexivity]
      | solve [intros (i & Hi & Hb & Hprev); exfalso;
               destruct (Hlt i Hi) as [-> | [-> | ->]];
               first [ congruence
                     | specialize (Hprev 0%nat ltac:(lia)); congruence
                     | specialize (Hprev 1%nat ltac:(lia)); congruence ]]
      | solve [intros Hall; exfalso;
               first [ specialize (Hall 0%nat ltac:(lia)); congruence
                     | specialize (Hall 1%nat ltac:(lia)); congruence
                     | specialize (Hall 2%nat ltac:(lia)); congruence ]]
      | solve [intros _ j Hj; destruct (Hlt j Hj) as [-> | [-> | ->]];
               assumption]
      | solve [intros _; exists 0%nat; split; [lia |]; split; [assumption |];
               intros j Hj; lia]
      | solve [intros _; exists 1%nat; split; [lia |]; split; [assumption |];
               intros j Hj; replace j with 0%nat by lia; assumption]
      | solve [intros _; exists 2%nat; split; [lia |]; split; [assumption |];
               intros j Hj; assert (j = 0 \/ j = 1)%nat as [-> | ->] by lia;
               assumption]
      | solve [intros i Hi Hne; destruct (Hlt i Hi) as [-> | [-> | ->]];
               simpl; first [lia | congruence]] ].
Qed.

Lemma retry_loop_outcomes_witness :
  run_agent_with_streaming
    (fun attempt => if (attempt <? 2)%nat then ProtocolError else Completed)
  = (Returned, [1%nat; 2%nat]).
Proof.
  pose proof (retry_loop_outcomes
                (fun attempt =>
                   if (attempt <? 2)%nat then ProtocolError else Completed))
    as (_ & Hret & _).
  cbv zeta in Hret.
  assert (Hr : fst (run_agent_with_streaming
                      (fun attempt =>
                         if (attempt <? 2)%nat then ProtocolError
                         else Completed))
               = Returned).
  { apply Hret. exists 2%nat. split; [lia |]. split; [reflexivity |].
    intros j Hj. assert (j = 0 \/ j = 1)%nat as [-> | ->] by lia;
      reflexivity. }
  destruct (run_agent_with_streaming _) as [r slept] eqn:E.
  cbn [fst] in Hr. subst r. vm_compute in E. injection E as <-. reflexivity.
Defined.

End Proofs.

(** * The properties at work on ASCII text *)

#[local] Existing Instance ascii_strings.

(** C2 (as stated) does not hold: with the PDF store down the web search is
    never issued, and with the web store down the chunk found in the PDF
    store is not returned. *)
Lemma stage_containment_fails :
  ~ stage_contained pdf_store_down 0%nat "usability" fresh_process
  /\ ~ stage_contained web_store_down 0%nat "usability" fresh_process.
Proof.
  split; intros H.
  - destruct (H [1%Q; 0%Q]
                (snd (get_embedding pdf_store_down "usability" 0%nat
                        fresh_process)) eq_refl) as [H1 _].
    specialize (H1 eq_refl). vm_compute in H1. discriminate.
  - destruct (H [1%Q; 0%Q]
                (snd (get_embedding web_store_down "usability" 0%nat
                        fresh_process)) eq_refl) as [_ H2].
    apply (H2 [pdf_row 1 "Usability" (Val (9 # 10))]);
      [reflexivity | discriminate | reflexivity | vm_compute; reflexivity].
Qed.

Lemma store_failure_aborts_search_witness :
  fst (retrieve_relevant_content_unified pdf_store_down 0%nat "usability"
         fresh_process)
  = Ret EmptyText.
Proof.
  apply (store_failure_aborts_search pdf_store_down 0%nat "usability"
           fresh_process
           {| call_request := MatchPdfDocuments [1%Q; 0%Q] 0 10;
              call_failed := true |}).
  - vm_compute. right. left. reflexivity.
  - reflexivity.
  - reflexivity.
Defined.

(** C3 (as stated) does not hold: a search that is cancelled while it waits
    for the embedding does not return, and a search whose embedding call
    has raised goes on with the zero vector and returns the chunk the PDF
    store answers, not the empty text. *)
Lemma search_outcome_depends_on_failure :
  ~ returns_empty_on_failure cancelled_while_embedding 0%nat "usability"
      fresh_process
  /\ ~ returns_empty_on_failure embedding_down 0%nat "usability"
        fresh_process.
Proof.
  split; intros (t & Ht & Hempty).
  - vm_compute in Ht. discriminate.
  - assert (Hf : t = EmptyText).
    { apply Hempty.
      exists {| call_request := EmbeddingsCreate "usability" 1536;
                call_failed := true |}.
      split; [vm_compute; left; reflexivity | reflexivity]. }
    rewrite Hf in Ht. vm_compute in Ht. discriminate.
Qed.

Lemma search_never_raises_witness :
  fst (retrieve_relevant_content_unified cancelled_while_embedding 0%nat
         "usability" fresh_process)
  = Cancelled
  /\ fst (retrieve_relevant_content_unified empty_stores 0%nat "usability"
            fresh_process)
     = Ret EmptyText.
Proof.
  split.
  - apply (search_never_raises cancelled_while_embedding 0%nat "usability"
             fresh_process); reflexivity.
  - destruct (search_never_raises empty_stores 0%nat "usability"
                fresh_process)
      as ([Hc | [t Ht]] & Hcancel & _ & Hret).
    + destruct (Hcancel Hc) as [Habs _]. discriminate Habs.
    + rewrite Ht, (proj2 (Hret t Ht) empty_stores_no_matches).
      reflexivity.
Defined.

Lemma results_sorted_by_similarity_witness :
  StronglySorted (fun x y => (similarity_key y <= similarity_key x)%Q)
    [entry web "web" (Some (95 # 100)); entry pdf "pdf" (Some (9 # 10));
     entry pdf "pdf-keyword" None].
Proof.
  apply (results_sorted_by_similarity three_passages 0%nat "usability"
           fresh_process
           (snd (retrieve_relevant_content_unified three_passages 0%nat
                   "usability" fresh_process))).
  vm_compute. reflexivity.
Defined.

(** C5 (as stated) does not hold: a chunk of the PDF store and a page of the
    web store that carry the same identifier are both returned. *)
Lemma ids_not_unique_across_stores :
  ~ ids_unique same_id_in_both_stores 0%nat "usability" fresh_process
  /\ fst (retrieve_relevant_content_unified same_id_in_both_stores 0%nat
            "usability" fresh_process)
     = Ret (JsonText [entry pdf "Usability" (Some (9 # 10));
                      entry web "Usability" (Some (8 # 10))]).
Proof.
  split; [| vm_compute; reflexivity].
  intros H.
  specialize (H [pdf_row 1 "Usability" (Val (9 # 10))]
                [web_row 1 "Usability" (8 # 10)]
                (snd (gather same_id_in_both_stores 0%nat "usability"
                        fresh_process))).
  assert (Hrun :
    gather same_id_in_both_stores 0%nat "usability" fresh_process
    = (Ret ([pdf_row 1 "Usability" (Val (9 # 10))],
            Some [web_row 1 "Usability" (8 # 10)]),
       snd (gather same_id_in_both_stores 0%nat "usability" fresh_process)))
    by (vm_compute; reflexivity).
  specialize (H Hrun). vm_compute in H.
  inversion H as [|x l Hni _]. apply Hni. left. reflexivity.
Qed.

Lemma pdf_ids_unique_witness :
  exists (hybrid : list pdf_doc) (docs : list web_doc) (es : list result),
    List.NoDup (map doc_id hybrid)
    /\ Permutation
         [entry pdf "first" None; entry pdf "second" None;
          entry web "page" (Some 0%Q)]
         (map pdf_entry hybrid ++ es)
    /\ Forall (fun e => res_type e = web) es
    /\ length es = length docs.
Proof.
  destruct (pdf_ids_unique keyword_hits 0%nat "usability" fresh_process
              (snd (retrieve_relevant_content_unified keyword_hits 0%nat
                      "usability" fresh_process))
              [entry pdf "first" None; entry pdf "second" None;
               entry web "page" (Some 0%Q)])
    as (hybrid & docs & es & _ & _ & Hnd & Hperm & _ & Hweb & Hlen).
  - vm_compute. reflexivity.
  - exists hybrid, docs, es. auto.
Defined.

Lemma ties_keep_merge_order_witness :
  exists (hybrid : list pdf_doc) (docs : list web_doc) (es : list result),
    Forall2 (fun d e => web_entry d = Ret e) docs es
    /\ forall k : Q,
         List.filter (has_similarity k)
           [entry pdf "first" None; entry pdf "second" None;
            entry web "page" (Some 0%Q)]
         = (List.filter (has_similarity k) (map pdf_entry hybrid)
            ++ List.filter (has_similarity k) es)%list.
Proof.
  destruct (ties_keep_merge_order keyword_hits 0%nat "usability" fresh_process
              (snd (retrieve_relevant_content_unified keyword_hits 0%nat
                      "usability" fresh_process))
              [entry pdf "first" None; entry pdf "second" None;
               entry web "page" (Some 0%Q)])
    as (emb & p1 & data & n & docs & es & _ & _ & _ & Hweb & _ & Hties).
  - vm_compute. reflexivity.
  - eexists _, docs, es. split; [exact Hweb | exact Hties].
Defined.

(** C1 (as stated) does not hold: when the third substring search raises,
    three searches have been issued and not the twelve of the six
    keywords. *)
Lemma fallback_stops_at_failure :
  ~ fallback_issues_all third_search_fails 0%nat "usability" fresh_process.
Proof.
  intros H.
  specialize (H [1%Q; 0%Q]
                (snd (get_embedding third_search_fails "usability" 0%nat
                        fresh_process))
                None eq_refl eq_refl eq_refl).
  vm_compute in H. discriminate.
Qed.

Lemma keyword_fallback_calls_witness :
  map call_request
    (List.filter is_substring_search
       (issued fresh_process
          (snd (retrieve_relevant_content_unified keyword_hits 0%nat
                  "Device class" fresh_process))))
  = [IlikePdfDocuments content_column "%device class%" 10;
     IlikePdfDocuments title_column "%device class%" 10;
     IlikePdfDocuments content_column "%device%" 10;
     IlikePdfDocuments title_column "%device%" 10;
     IlikePdfDocuments content_column "%class%" 10;
     IlikePdfDocuments title_column "%class%" 10;
     IlikePdfDocuments content_column "%class%" 10;
     IlikePdfDocuments title_column "%class%" 10;
     IlikePdfDocuments content_column "%classification%" 10;
     IlikePdfDocuments title_column "%classification%" 10;
     IlikePdfDocuments content_column "%device%" 10;
     IlikePdfDocuments title_column "%device%" 10;
     IlikePdfDocuments content_column "%medical%" 10;
     IlikePdfDocuments title_column "%medical%" 10].
Proof.
  destruct (keyword_fallback_calls keyword_hits 0%nat "Device class"
              fresh_process
              (snd (get_embedding keyword_hits "Device class" 0%nat
                      fresh_process))
              [1%Q; 0%Q] None eq_refl eq_refl) as (_ & _ & H).
  destruct (H eq_refl) as (_ & _ & Hall).
  destruct Hall as [Hreq _].
  - vm_compute. repeat constructor.
  - rewrite Hreq. vm_compute. reflexivity.
Defined.

Lemma rank_filters_and_sorts_witness :
  map title (rank (Some "usability") sample_catalogue)
  = ["Human factors handbook"; "Usability testing 101";
     "usability checklist"]
  /\ list_airtable_resources (Ret sample_catalogue) None (Some "usability")
     = join (nl +:+ "---" +:+ nl)
         (map render_resource (rank (Some "usability") sample_catalogue)).
Proof.
  destruct (rank_filters_and_sorts "usability" sample_catalogue)
    as (_ & _ & _ & _ & _ & _ & Htool).
  split; [vm_compute; reflexivity |].
  apply (Htool None). discriminate.
Defined.

Lemma longer_filter_selects_less_witness :
  In (format_resource
        (fields (catalogue_record "Usability testing 101" "Design"
                   (Some 5%Z))))
     (rank (Some "usability") sample_catalogue).
Proof.
  apply (longer_filter_selects_less "usability" "Usability testing"
           sample_catalogue).
  - exists "", " testing". reflexivity.
  - vm_compute. left. reflexivity.
Defined.


Lemma embedding_failure_searches_with_zeros_witness :
  exists flag rest,
    issued fresh_process
      (snd (retrieve_relevant_content_unified embedding_down 0%nat
              "usability" fresh_process))
    = {| call_request := EmbeddingsCreate "usability" 1536;
         call_failed := true |}
      :: {| call_request := MatchPdfDocuments zero_vector 0 10;
            call_failed := flag |}
      :: rest.
Proof.
  apply (embedding_failure_searches_with_zeros embedding_down 0%nat
           "usability" fresh_process); reflexivity.
Defined.

Lemma malformed_web_answer_empties_result_witness :
  fst (retrieve_relevant_content_unified web_row_without_similarity 0%nat
         "usability" fresh_process)
  = Ret EmptyText.
Proof.
  rewrite (malformed_web_answer_empties_result web_row_without_similarity
             0%nat "usability" fresh_process
             (snd (gather web_row_without_similarity 0%nat "usability"
                     fresh_process))
             [pdf_row 1 "Usability" (Val (9 # 10))]
             (Some [{| web_id := Val 2%Z; web_title := Val "Usability";
                       web_content := Val "text"; web_url := Val "/usability";
                       web_similarity := Absent |}])).
  - reflexivity.
  - vm_compute. reflexivity.
  - right. eexists _, _. split; [reflexivity |].
    split; [left; reflexivity |]. right. right. right. reflexivity.
Defined.

Lemma search_call_budget_witness :
  length
    (issued fresh_process
       (snd (retrieve_relevant_content_unified keyword_hits 0%nat
               "Device class" fresh_process)))
  = 17%nat
  /\ (length
        (issued fresh_process
           (snd (retrieve_relevant_content_unified keyword_hits 0%nat
                   "Device class" fresh_process)))
      <= 17)%nat.
Proof.
  split; [vm_compute; reflexivity |].
  exact (search_call_budget keyword_hits 0%nat "Device class" fresh_process).
Defined.

Lemma result_size_bound_witness :
  (length [entry web "web" (Some (95 # 100)); entry pdf "pdf" (Some (9 # 10));
           entry pdf "pdf-keyword" None]
   <= 10 + 20 * length (keywords "usability"))%nat.
Proof.
  apply (result_size_bound limited_passages 0%nat "usability" fresh_process
           (snd (retrieve_relevant_content_unified limited_passages 0%nat
                   "usability" fresh_process))).
  - repeat split.
    + intros n e t c data [= <-]. apply firstn_le_length.
    + intros n col pat lim data [= <-]. apply Nat.le_0_l.
    + intros n e c data [= <-]. apply firstn_le_length.
  - vm_compute. reflexivity.
Defined.

Lemma clinical_stage_comes_last_witness :
  doc_development_stage
    (content_metadata "Protocol for a Pre-Clinical study in animals")
  <> "clinical".
Proof.
  apply (clinical_stage_comes_last
           "Protocol for a Pre-Clinical study in animals").
  left. exists "protocol for a ", " study in animals". reflexivity.
Defined.

Lemma monitoring_device_type_witness :
  doc_device_type (content_metadata "A wearable heart-rate Monitor")
  = "monitoring".
Proof.
  apply (monitoring_device_type "A wearable heart-rate Monitor"). split.
  - exists "a wearable heart-rate ", "". reflexivity.
  - intros (w & Hw & H). apply contains_spec in H.
    destruct Hw as [<- | [<- | [<- | [<- | []]]]]; vm_compute in H;
      discriminate.
Defined.

Lemma first_matching_url_witness :
  associated_url_for main_url_mapping "Clinical-Trials_Data-plan.pdf"
  = Some "https://medtechone-learning.com/clinical-trials".
Proof.
  apply (first_matching_url main_url_mapping "Clinical-Trials_Data-plan.pdf").
  split; [reflexivity |]. split; [discriminate |].
  exists [("https://medtechone-learning.com/pre-clinical-trials",
           ["pre-clinical"; "Pre-Clinical"])],
         ["clinical trials"; "Clinical-Trials"],
         [("https://medtechone-learning.com/data", ["data"; "Data"]);
          ("https://medtechone-learning.com/usability",
           ["usability"; "Usability"]);
          ("https://medtechone-learning.com/software",
           ["software"; "Software"])].
  split; [reflexivity |]. split; [reflexivity |].
  constructor; [right; reflexivity | constructor].
Defined.
